(** * Titanic data cleaning and exploratory analysis: a shallow embedding

    The two scripts [project1_data_cleaning.py] and [project1_eda.py] are
    straight-line pandas programs.  A data frame is modelled column-major, as
    pandas stores it: an ordered list of named columns, each carrying its
    dtype and its values.  A missing value (NaN / pd.NA) is [None].  The
    cleaner is modelled for any kind of number that can be compared and
    averaged ([Number]): the exact rationals [Qc], and the rationals with the
    two infinities of float64 ([xnum]), where the mean of -inf and +inf is
    NaN.  The analyzer is modelled on tables of finite numbers, with exact
    rational arithmetic.  Strings are ASCII strings.  The pandas
    operations the scripts call ([drop_duplicates], [str.strip], [isna],
    [median], [mode], [fillna], [quantile], [corr], [groupby] ...) are
    modelled by their documented behaviour, one definition per call. *)

From Stdlib Require Import List Bool Arith Lia ZArith.
From Stdlib Require Import Permutation Sorted.
From Stdlib Require Import Ascii String.
From Stdlib Require Import QArith Qcanon Qround.
From Stdlib Require Import Reals Qreals Lra.
Import ListNotations.

Close Scope Q_scope.
Close Scope Qc_scope.
Close Scope R_scope.
Local Open Scope string_scope.
Local Open Scope list_scope.
Local Open Scope nat_scope.

(** ** Exceptions and results *)

(** The exceptions of the two scripts and of the libraries they call. *)
Inductive exn : Type :=
| AttributeError
| KeyError (key : string)
| ValueError (msg : string)
| FileNotFoundError (msg : string).

Inductive result (A : Type) : Type :=
| Ok (a : A)
| Raise (e : exn).
Arguments Ok {A} a.
Arguments Raise {A} e.

Definition bind {A B} (r : result A) (k : A -> result B) : result B :=
  match r with
  | Ok a => k a
  | Raise e => Raise e
  end.

Notation "x <- r ;; k" := (bind r (fun x => k))
  (at level 61, r at next level, right associativity).

Fixpoint mapM {A B} (f : A -> result B) (l : list A) : result (list B) :=
  match l with
  | [] => Ok []
  | a :: l' => b <- f a ;; bs <- mapM f l' ;; Ok (b :: bs)
  end.

(** ** Python string methods on ASCII strings *)

Module PyStr.

(** [str.isspace] on one ASCII character: \t \n \v \f \r, the four
    separators 0x1c..0x1f and the space. *)
Definition is_space (c : ascii) : bool :=
  let n := nat_of_ascii c in
  ((9 <=? n) && (n <=? 13)) || ((28 <=? n) && (n <=? 32)).

Definition lower_char (c : ascii) : ascii :=
  let n := nat_of_ascii c in
  if (65 <=? n) && (n <=? 90) then ascii_of_nat (n + 32) else c.

Definition upper_char (c : ascii) : ascii :=
  let n := nat_of_ascii c in
  if (97 <=? n) && (n <=? 122) then ascii_of_nat (n - 32) else c.

Fixpoint map_chars (f : ascii -> ascii) (s : string) : string :=
  match s with
  | EmptyString => EmptyString
  | String c s' => String (f c) (map_chars f s')
  end.

Definition lower : string -> string := map_chars lower_char.
Definition upper : string -> string := map_chars upper_char.

Fixpoint lstrip (s : string) : string :=
  match s with
  | EmptyString => EmptyString
  | String c s' => if is_space c then lstrip s' else s
  end.

Fixpoint rstrip (s : string) : string :=
  match s with
  | EmptyString => EmptyString
  | String c s' =>
      match rstrip s' with
      | EmptyString => if is_space c then EmptyString else String c EmptyString
      | r => String c r
      end
  end.

Definition strip (s : string) : string := rstrip (lstrip s).

End PyStr.

(** ** Rational helpers *)

Definition Qc_of_nat (n : nat) : Qc := Q2Qc (inject_Z (Z.of_nat n)).
Definition Qc_of_Z (z : Z) : Qc := Q2Qc (inject_Z z).

Definition Qceqb (x y : Qc) : bool := Qeq_bool x y.
Definition Qcleb (x y : Qc) : bool := Qle_bool x y.
Definition Qcltb (x y : Qc) : bool := negb (Qle_bool y x).

Definition Qc_zero : Qc := Q2Qc 0.
Definition Qc_two : Qc := Qc_of_nat 2.

(** ** Numbers *)

(** What the cleaner asks of the numbers of a numeric column: equality (for
    duplicate rows), order (for the median) and the mean of two values, which
    float64 leaves undefined (NaN) for -inf and +inf. *)
Class Number (num : Type) : Type := {
  num_eqb : num -> num -> bool;
  num_leb : num -> num -> bool;
  num_zero : num;
  midpoint : num -> num -> option num;
  num_eqb_eq : forall a b, num_eqb a b = true <-> a = b
}.

(** The mean of two values always exists. *)
Definition midpoint_total (num : Type) {number : Number num} : Prop :=
  forall a b : num, midpoint a b <> None.

(** Finite numbers. *)
#[export] Instance Qc_number : Number Qc.
Proof.
  refine {| num_eqb := Qceqb;
            num_leb := Qcleb;
            num_zero := Qc_zero;
            midpoint := fun a b => Some ((a + b) / Qc_two)%Qc;
            num_eqb_eq := _ |}.
  intros a b. unfold Qceqb. rewrite Qeq_bool_iff. split.
  - apply Qc_is_canon.
  - intros ->. reflexivity.
Defined.

(** The values of a float64 column other than NaN: the finite numbers and
    the two infinities, which [read_csv] reads from "inf" and "-inf". *)
Inductive xnum : Type :=
| NegInf
| Fin (q : Qc)
| PosInf.

Definition xnum_eqb (a b : xnum) : bool :=
  match a, b with
  | NegInf, NegInf => true
  | Fin x, Fin y => Qceqb x y
  | PosInf, PosInf => true
  | _, _ => false
  end.

Definition xnum_leb (a b : xnum) : bool :=
  match a, b with
  | NegInf, _ => true
  | _, PosInf => true
  | Fin x, Fin y => Qcleb x y
  | _, _ => false
  end.

(** [(a + b) / 2] in float64, rounding apart: an infinity absorbs a finite
    number, and -inf + inf is NaN. *)
Definition xnum_midpoint (a b : xnum) : option xnum :=
  match a, b with
  | Fin x, Fin y => Some (Fin ((x + y) / Qc_two)%Qc)
  | NegInf, PosInf => None
  | PosInf, NegInf => None
  | NegInf, _ => Some NegInf
  | _, NegInf => Some NegInf
  | PosInf, _ => Some PosInf
  | _, PosInf => Some PosInf
  end.

#[export] Instance xnum_number : Number xnum.
Proof.
  refine {| num_eqb := xnum_eqb;
            num_leb := xnum_leb;
            num_zero := Fin Qc_zero;
            midpoint := xnum_midpoint;
            num_eqb_eq := _ |}.
  intros [|x|] [|y|]; simpl; try (split; [discriminate | discriminate]);
    try (split; reflexivity).
  unfold Qceqb. rewrite Qeq_bool_iff. split.
  - intros H. f_equal. apply Qc_is_canon, H.
  - intros [= ->]. reflexivity.
Defined.

(** ** Data model *)

Section Frame.
Context {num : Type} {number : Number num}.

(** The values of a column, tagged with the pandas dtype: a numeric dtype
    (int64 / float64), [object] (what [read_csv] gives a text column) and
    the [string] extension dtype (what [astype("string")] gives). *)
Inductive coldata : Type :=
| Numeric (v : list (option num))
| Object (v : list (option string))
| StringArr (v : list (option string)).

Record Series : Type := mkSeries { name : string; data : coldata }.

(** The columns of a frame loaded by [read_csv] have the same length and
    pairwise distinct names (repeated header names are renamed on load). *)
Definition DataFrame : Type := list Series.

Definition is_numeric (c : Series) : bool :=
  match data c with Numeric _ => true | _ => false end.

Definition is_object (c : Series) : bool :=
  match data c with Object _ => true | _ => false end.

Definition is_none {A} (x : option A) : bool :=
  match x with None => true | Some _ => false end.

(** [Series.isna()] *)
Definition isna (c : Series) : list bool :=
  match data c with
  | Numeric v => map is_none v
  | Object v => map is_none v
  | StringArr v => map is_none v
  end.

Definition count_true (l : list bool) : nat := List.length (filter (fun b : bool => b) l).

(** [len(series)] *)
Definition size (c : Series) : nat := List.length (isna c).

(** [series.isna().sum()] *)
Definition missing_count (c : Series) : nat := count_true (isna c).

(** [series.isna().any()] *)
Definition isna_any (c : Series) : bool := existsb (fun b : bool => b) (isna c).

(** [len(df)]: the length of the shared index. *)
Definition nrows (df : DataFrame) : nat :=
  match df with
  | [] => 0
  | c :: _ => size c
  end.

(** *** Rows, for duplicate detection *)

Inductive cell : Type :=
| CNum (x : option num)
| CStr (x : option string).

Definition cells (c : Series) : list cell :=
  match data c with
  | Numeric v => map CNum v
  | Object v => map CStr v
  | StringArr v => map CStr v
  end.

Definition row_at (df : DataFrame) (i : nat) : list cell :=
  map (fun c => nth i (cells c) (CStr None)) df.

Definition rows (df : DataFrame) : list (list cell) :=
  map (row_at df) (seq 0 (nrows df)).

Definition option_eqb {A} (eqb : A -> A -> bool) (x y : option A) : bool :=
  match x, y with
  | None, None => true
  | Some a, Some b => eqb a b
  | _, _ => false
  end.

(** Two missing values compare equal when rows are compared for
    duplication. *)
Definition cell_eqb (a b : cell) : bool :=
  match a, b with
  | CNum x, CNum y => option_eqb num_eqb x y
  | CStr x, CStr y => option_eqb String.eqb x y
  | _, _ => false
  end.

Fixpoint row_eqb (r s : list cell) : bool :=
  match r, s with
  | [], [] => true
  | a :: r', b :: s' => cell_eqb a b && row_eqb r' s'
  | _, _ => false
  end.

(** ** The cleaner ([project1_data_cleaning.py]) *)

(** [df.duplicated()]: a row is flagged when an equal row occurs earlier. *)
Fixpoint duplicated_from (seen : list (list cell)) (rs : list (list cell))
  : list bool :=
  match rs with
  | [] => []
  | r :: rs' => existsb (row_eqb r) seen :: duplicated_from (r :: seen) rs'
  end.

Definition duplicated (df : DataFrame) : list bool :=
  duplicated_from [] (rows df).

(** Boolean indexing: keep the positions whose mask is [true]. *)
Fixpoint take_mask {A} (m : list bool) (l : list A) : list A :=
  match m, l with
  | b :: m', x :: l' => if b then x :: take_mask m' l' else take_mask m' l'
  | _, _ => []
  end.

Definition select_rows (m : list bool) (c : Series) : Series :=
  mkSeries (name c)
    match data c with
    | Numeric v => Numeric (take_mask m v)
    | Object v => Object (take_mask m v)
    | StringArr v => StringArr (take_mask m v)
    end.

(** [df.drop_duplicates().reset_index(drop=True)] *)
Definition drop_duplicates (df : DataFrame) : DataFrame :=
  let keep := map negb (duplicated df) in
  map (select_rows keep) df.

(** [df[col].astype("string").str.strip()] for every object column. *)
Definition strip_column (c : Series) : Series :=
  match data c with
  | Object v => mkSeries (name c) (StringArr (map (option_map PyStr.strip) v))
  | _ => c
  end.

Definition strip_text_cols (df : DataFrame) : DataFrame :=
  map strip_column df.

(** The [.str] accessor: available on text columns, [AttributeError] on a
    numeric one. *)
Definition str_map (f : string -> string) (c : Series) : result Series :=
  match data c with
  | Numeric _ => Raise AttributeError
  | Object v => Ok (mkSeries (name c) (Object (map (option_map f) v)))
  | StringArr v => Ok (mkSeries (name c) (StringArr (map (option_map f) v)))
  end.

(** [series.replace({"": pd.NA})] *)
Definition blank_to_na (x : option string) : option string :=
  match x with
  | Some s => if String.eqb s "" then None else Some s
  | None => None
  end.

Definition replace_blank (c : Series) : Series :=
  match data c with
  | Numeric _ => c
  | Object v => mkSeries (name c) (Object (map blank_to_na v))
  | StringArr v => mkSeries (name c) (StringArr (map blank_to_na v))
  end.

(** [if nm in df.columns: df[nm] = f(df[nm])]: [f] on the column named
    [nm], of which a frame has at most one. *)
Definition on_column (nm : string) (f : Series -> result Series)
    (df : DataFrame) : result DataFrame :=
  mapM (fun c => if String.eqb (name c) nm then f c else Ok c) df.

Definition normalize_named (df : DataFrame) : result DataFrame :=
  df <- on_column "Sex" (str_map PyStr.lower) df ;;
  df <- on_column "Ticket" (str_map PyStr.upper) df ;;
  on_column "Embarked" (fun c => Ok (replace_blank c)) df.

(** [df.isna().mean() * 100], [None] standing for the NaN of an empty
    column. *)
Definition missing_ratio (c : Series) : option Qc :=
  match size c with
  | O => None
  | n => Some (Qc_of_nat (missing_count c) / Qc_of_nat n * Qc_of_nat 100)%Qc
  end.

(** [missing_ratio > 60]; a comparison with NaN is false. *)
Definition above_threshold (c : Series) : bool :=
  match missing_ratio c with
  | Some p => Qcltb (Qc_of_nat 60) p
  | None => false
  end.

Definition drop_high_missing (df : DataFrame) : DataFrame :=
  filter (fun c => negb (above_threshold c)) df.

(** [series.dropna()] as a plain list of the present values. *)
Fixpoint dropna {A} (v : list (option A)) : list A :=
  match v with
  | [] => []
  | Some a :: v' => a :: dropna v'
  | None :: v' => dropna v'
  end.

(** [series.fillna(x)] *)
Definition fillna {A} (x : A) (v : list (option A)) : list (option A) :=
  map (fun o => match o with None => Some x | Some _ => o end) v.

Section Sorting.
Context {A : Type} (leb : A -> A -> bool).

Fixpoint insert_sorted (x : A) (l : list A) : list A :=
  match l with
  | [] => [x]
  | y :: l' => if leb x y then x :: l else y :: insert_sorted x l'
  end.

Fixpoint sort (l : list A) : list A :=
  match l with
  | [] => []
  | x :: l' => insert_sorted x (sort l')
  end.
End Sorting.

(** [series.median()]: the middle present value, or the mean of the two
    middle ones; NaN without present values, and when that mean is NaN. *)
Definition median (v : list (option num)) : option num :=
  let s := sort num_leb (dropna v) in
  let n := List.length s in
  match n with
  | O => None
  | _ =>
      if Nat.even n
      then midpoint (nth (n / 2 - 1) s num_zero) (nth (n / 2) s num_zero)
      else Some (nth (n / 2) s num_zero)
  end.

Definition fill_numeric_col (c : Series) : Series :=
  match data c with
  | Numeric v =>
      if isna_any c then
        match median v with
        | Some med => mkSeries (name c) (Numeric (fillna med v))
        | None => c
        end
      else c
  | _ => c
  end.

Definition fill_numeric (df : DataFrame) : DataFrame := map fill_numeric_col df.

(** Distinct values in order of first appearance. *)
Fixpoint unique {A} (eqb : A -> A -> bool) (l : list A) : list A :=
  match l with
  | [] => []
  | x :: l' => x :: filter (fun y => negb (eqb x y)) (unique eqb l')
  end.

Definition occurrences (x : string) (l : list string) : nat :=
  List.length (filter (String.eqb x) l).

Definition max_count (l : list string) : nat :=
  fold_right (fun x m => Nat.max (occurrences x l) m) 0 l.

(** [series.mode(dropna=True)]: the most frequent present values, sorted. *)
Definition mode (v : list (option string)) : list string :=
  let present := dropna v in
  let top := max_count present in
  sort String.leb
    (filter (fun x => occurrences x present =? top) (unique String.eqb present)).

(** [mode_series.iloc[0] if len(mode_series) > 0 else "Unknown"] *)
Definition fill_value (v : list (option string)) : string :=
  match mode v with
  | x :: _ => x
  | [] => "Unknown"
  end.

Definition fill_categorical_col (c : Series) : Series :=
  match data c with
  | Numeric _ => c
  | Object v =>
      if isna_any c then mkSeries (name c) (Object (fillna (fill_value v) v))
      else c
  | StringArr v =>
      if isna_any c then mkSeries (name c) (StringArr (fillna (fill_value v) v))
      else c
  end.

Definition fill_categorical (df : DataFrame) : DataFrame :=
  map fill_categorical_col df.

(** Text clean-up, steps 4 and 5 of [main]. *)
Definition normalize (df : DataFrame) : result DataFrame :=
  let df := drop_duplicates df in
  let df := strip_text_cols df in
  normalize_named df.

(** Missing-value handling, step 6 of [main]. *)
Definition handle_missing (df : DataFrame) : DataFrame :=
  let df := drop_high_missing df in
  let df := fill_numeric df in
  fill_categorical df.

(** The table [main] writes to [titanic_cleaned.csv], as a function of the
    table it loaded. *)
Definition clean (df : DataFrame) : result DataFrame :=
  df <- normalize df ;;
  Ok (handle_missing df).

(** *** Auxiliary notions *)

(** The [.str] accessor is used on the columns named Sex and Ticket; it is
    defined on text columns only. *)
Definition text_named (df : DataFrame) : bool :=
  forallb (fun c =>
             negb (String.eqb (name c) "Sex" || String.eqb (name c) "Ticket")
             || negb (is_numeric c)) df.

(** The fraction of missing values of a column, undefined on an empty one. *)
Definition missing_fraction (c : Series) : option Qc :=
  match size c with
  | O => None
  | n => Some (Qc_of_nat (missing_count c) / Qc_of_nat n)%Qc
  end.

Definition exceeds_threshold (c : Series) : Prop :=
  match missing_fraction c with
  | Some f => (Q2Qc (3 # 5) < f)%Qc
  | None => False
  end.

(** A function applied to the present values of a text column. *)
Definition text_map (f : string -> string) (c : Series) : Series :=
  match data c with
  | Numeric _ => c
  | Object v => mkSeries (name c) (Object (map (option_map f) v))
  | StringArr v => mkSeries (name c) (StringArr (map (option_map f) v))
  end.

(** What the three named clean-ups amount to on one column, the column
    being chosen by its exact name. *)
Definition named_cleanup (c : Series) : Series :=
  if String.eqb (name c) "Sex" then text_map PyStr.lower c
  else if String.eqb (name c) "Ticket" then text_map PyStr.upper c
  else if String.eqb (name c) "Embarked" then replace_blank c
  else c.

(** [g] on the columns named [nm], the others untouched. *)
Definition on_name (nm : string) (g : Series -> Series) (c : Series) : Series :=
  if String.eqb (name c) nm then g c else c.

(** A frame without rows: every column is empty. *)
Definition zero_rows (df : DataFrame) : bool :=
  forallb (fun c => size c =? 0) df.

(** The text values of a column (none for a numeric one). *)
Definition text_values (c : Series) : list (option string) :=
  match data c with
  | Numeric _ => []
  | Object v => v
  | StringArr v => v
  end.

(** A function applied to the cells of a text column. *)
Definition cell_map (g : option string -> option string) (c : Series) : Series :=
  match data c with
  | Numeric _ => c
  | Object v => mkSeries (name c) (Object (map g v))
  | StringArr v => mkSeries (name c) (StringArr (map g v))
  end.

(** The clean-up a column name calls for, if any. *)
Definition cleanup_of (nm : string) : option (option string -> option string) :=
  if String.eqb nm "Sex" then Some (option_map PyStr.lower)
  else if String.eqb nm "Ticket" then Some (option_map PyStr.upper)
  else if String.eqb nm "Embarked" then Some blank_to_na
  else None.

(** A column as the cleaner leaves it: not of dtype object, nothing
    missing, its named clean-up already done. *)
Definition settled (c : Series) : Prop :=
  is_object c = false /\ missing_count c = 0 /\ named_cleanup c = c.

(** A frame whose columns all have the length of its index. *)
Definition rectangular (df : DataFrame) : bool :=
  forallb (fun c => size c =? nrows df) df.

(** The first [n] rows of columns given as plain lists of cells. *)
Definition rows_of (cols : list (list cell)) (n : nat) : list (list cell) :=
  map (fun i => map (fun c => nth i c (CStr None)) cols) (seq 0 n).

(** Membership in a list of rows, by [row_eqb]. *)
Definition seen_in (seen : list (list cell)) (r : list cell) : bool :=
  existsb (row_eqb r) seen.

Definition cell_missing (a : cell) : bool :=
  match a with
  | CNum x => is_none x
  | CStr x => is_none x
  end.

(** A string made of whitespace only. *)
Fixpoint all_space (s : string) : bool :=
  match s with
  | EmptyString => true
  | String c s' => PyStr.is_space c && all_space s'
  end.

(** A string that does not start with whitespace. *)
Definition head_not_space (s : string) : Prop :=
  match s with
  | EmptyString => True
  | String c _ => PyStr.is_space c = false
  end.

(** [df.isna().sum().sort_values(ascending=False)] *)
Definition missing_counts (df : DataFrame) : list (string * nat) :=
  sort (fun a b => snd b <=? snd a)
    (map (fun c => (name c, missing_count c)) df).

(** [missing_counts[missing_counts > 0]], the report printed before and
    after cleaning and by the analyzer. *)
Definition missing_report (df : DataFrame) : list (string * nat) :=
  filter (fun p => 0 <? snd p) (missing_counts df).

(** The state of a column after step 6: no hole, or a numeric column with a
    value whose median could not be computed. *)
Definition filled_or_no_median (c : Series) : Prop :=
  missing_count c = 0
  \/ exists v, data c = Numeric v /\ dropna v <> [] /\ median v = None.

End Frame.

(** ** The analyzer ([project1_eda.py]) *)

Section Analysis.

(** The analyzer is modelled on frames of finite numbers. *)
Abbreviation coldata := (@coldata Qc).
Abbreviation Series := (@Series Qc).
Abbreviation DataFrame := (@DataFrame Qc).
Abbreviation cell := (@cell Qc).

(** [colname(df, target)]: the first column name equal to [target] up to
    letter case. *)
Fixpoint colname (df : DataFrame) (target : string) : option string :=
  match df with
  | [] => None
  | c :: df' =>
      if String.eqb (PyStr.lower (name c)) (PyStr.lower target)
      then Some (name c)
      else colname df' target
  end.

(** [df[nm]] *)
Fixpoint getitem (df : DataFrame) (nm : string) : result Series :=
  match df with
  | [] => Raise (KeyError nm)
  | c :: df' => if String.eqb (name c) nm then Ok c else getitem df' nm
  end.

(** [df[nm] = s] for an existing column. *)
Definition setitem (df : DataFrame) (nm : string) (d : coldata) : DataFrame :=
  map (fun c => if String.eqb (name c) nm then mkSeries nm d else c) df.

(** [df.select_dtypes(include=[np.number])] *)
Definition num_cols (df : DataFrame) : list Series := filter is_numeric df.

Definition numeric_values (c : Series) : list (option Qc) :=
  match data c with
  | Numeric v => v
  | _ => []
  end.

Definition sumQc (l : list Qc) : Qc := fold_right Qcplus Qc_zero l.

(** [series.mean()] over the present values, NaN when there is none.  The
    sum and the quotient are exact; float64 rounds them. *)
Definition mean (l : list Qc) : option Qc :=
  match l with
  | [] => None
  | _ => Some (sumQc l / Qc_of_nat (List.length l))%Qc
  end.

(** *** Outliers, step 5 *)

(** [series.quantile(q)] with the default linear interpolation: the value
    at fractional position [(n - 1) * q] of the sorted values. *)
Definition quantile (s : list Qc) (q : Qc) : Qc :=
  let sorted := sort Qcleb s in
  let n := List.length sorted in
  let pos := (Qc_of_nat (n - 1) * q)%Qc in
  let lo := Z.to_nat (Qfloor pos) in
  let hi := Nat.min (lo + 1) (n - 1) in
  let frac := (pos - Qc_of_Z (Qfloor pos))%Qc in
  let a := nth lo sorted Qc_zero in
  let b := nth hi sorted Qc_zero in
  (a + frac * (b - a))%Qc.

Definition Q1 (s : list Qc) : Qc := quantile s (Q2Qc (1 # 4)).
Definition Q3 (s : list Qc) : Qc := quantile s (Q2Qc (3 # 4)).
Definition IQR (s : list Qc) : Qc := (Q3 s - Q1 s)%Qc.
Definition lower_fence (s : list Qc) : Qc := (Q1 s - Q2Qc (3 # 2) * IQR s)%Qc.
Definition upper_fence (s : list Qc) : Qc := (Q3 s + Q2Qc (3 # 2) * IQR s)%Qc.

(** [series[(series < lower) | (series > upper)]] *)
Definition outliers (s : list Qc) : list Qc :=
  filter (fun x => Qcltb x (lower_fence s) || Qcltb (upper_fence s) x) s.

Definition outlier_count (c : Series) : nat :=
  let series := dropna (numeric_values c) in
  match series with
  | [] => 0
  | _ => List.length (outliers series)
  end.

(** [pd.Series(outlier_report).sort_values(ascending=False)] *)
Definition outlier_series (df : DataFrame) : list (string * nat) :=
  sort (fun a b => snd b <=? snd a)
    (map (fun c => (name c, outlier_count c)) (num_cols df)).

(** *** Correlation, step 6 *)

(** The observations two columns share: the rows where both are present. *)
Fixpoint complete_pairs (x y : list (option Qc)) : list (Qc * Qc) :=
  match x, y with
  | Some a :: x', Some b :: y' => (a, b) :: complete_pairs x' y'
  | _ :: x', _ :: y' => complete_pairs x' y'
  | _, _ => []
  end.

Definition sum_sq (d : list Qc) : Qc := sumQc (map (fun a => a * a)%Qc d).

Definition sum_prod (dx dy : list Qc) : Qc :=
  sumQc (map (fun p => fst p * snd p)%Qc (combine dx dy)).

Definition deviations (l : list Qc) (m : Qc) : list Qc :=
  map (fun a => a - m)%Qc l.

(** One entry of [DataFrame.corr()] (Pearson, pairwise complete
    observations): the co-moment over the root of the product of the two
    second moments, NaN when there is no observation or that root is 0.
    The entry is the exact real number; float64 rounds it. *)
Definition pearson (x y : list (option Qc)) : option R :=
  let ps := complete_pairs x y in
  let xs := map fst ps in
  let ys := map snd ps in
  match mean xs, mean ys with
  | Some mx, Some my =>
      let dx := deviations xs mx in
      let dy := deviations ys my in
      let prod := (sum_sq dx * sum_sq dy)%Qc in
      if Qceqb prod Qc_zero then None
      else Some (Q2R (sum_prod dx dy) / sqrt (Q2R prod))%R
  | _, _ => None
  end.

Definition corr (cols : list Series) : list (list (option R)) :=
  map (fun a =>
         map (fun b => pearson (numeric_values a) (numeric_values b)) cols)
      cols.

Inductive corr_outcome : Type :=
| CorrMatrix (labels : list string) (entries : list (list (option R)))
| CorrSkipped (warning : string).

Definition correlation_step (df : DataFrame) : corr_outcome :=
  let nc := num_cols df in
  if 2 <=? List.length nc
  then CorrMatrix (map name nc) (corr nc)
  else CorrSkipped "Not enough numeric columns for correlation.".

(** Entry of a matrix by position; [None] also outside the matrix. *)
Definition entry (m : list (list (option R))) (i j : nat) : option R :=
  nth j (nth i m []) None.

(** *** Rate by category, step 9 *)

Inductive key : Type :=
| KNum (q : Qc)
| KStr (s : string).

Definition key_eqb (a b : key) : bool :=
  match a, b with
  | KNum x, KNum y => Qceqb x y
  | KStr x, KStr y => String.eqb x y
  | _, _ => false
  end.

Definition key_leb (a b : key) : bool :=
  match a, b with
  | KNum x, KNum y => Qcleb x y
  | KStr x, KStr y => String.leb x y
  | KNum _, KStr _ => true
  | KStr _, KNum _ => false
  end.

Definition keys (c : Series) : list (option key) :=
  match data c with
  | Numeric v => map (option_map KNum) v
  | Object v => map (option_map KStr) v
  | StringArr v => map (option_map KStr) v
  end.

(** [series.sort_values(ascending=False)]: present values in descending
    order, ties in their former order, NaN last. *)
Definition sort_values_desc {K} (s : list (K * option Qc)) : list (K * option Qc) :=
  sort (fun a b =>
          match snd a, snd b with
          | Some x, Some y => Qcleb y x
          | _, _ => true
          end)
       (filter (fun p => negb (is_none (snd p))) s)
  ++ filter (fun p => is_none (snd p)) s.

(** [df.groupby(by)[col].mean()]: one group per present key, keys sorted,
    the mean over the present values of the group. *)
Definition groupby_mean (by_ : list (option key)) (vals : list (option Qc))
  : list (key * option Qc) :=
  map (fun k =>
         (k, mean (dropna (map snd
                (filter (fun p => option_eqb key_eqb (fst p) (Some k))
                        (combine by_ vals))))))
      (sort key_leb (unique key_eqb (dropna by_))).

Inductive rate_outcome : Type :=
| Rates (table : list (key * option Qc))
| RateSkipped (warning : string).

Section Coercion.

(** [pd.to_numeric(..., errors="coerce")] on one text value: the number
    it spells, or NaN.  The parser belongs to pandas; it is a parameter. *)
Variable parse_number : string -> option Qc.

Definition coerce (x : option string) : option Qc :=
  match x with
  | Some s => parse_number s
  | None => None
  end.

Definition to_numeric (c : Series) : list (option Qc) :=
  match data c with
  | Numeric v => v
  | Object v => map coerce v
  | StringArr v => map coerce v
  end.

Definition survival_by_sex (df : DataFrame) : result (DataFrame * rate_outcome) :=
  let sex_col := colname df "sex" in
  let surv_col := colname df "survived" in
  match sex_col, surv_col with
  | Some sx, Some sv =>
      s <- getitem df sv ;;
      let df := setitem df sv (Numeric (to_numeric s)) in
      g <- getitem df sx ;;
      o <- getitem df sv ;;
      Ok (df, Rates (sort_values_desc
                       (groupby_mean (keys g) (numeric_values o))))
  | _, _ =>
      Ok (df, RateSkipped
                "Need both 'sex' and 'survived' for survival-by-sex plot. Skipping.")
  end.

End Coercion.

(** *** The run of [main]: effects and outcome *)

(** What a run leaves behind, in order: directories made, report files
    written, charts saved and warnings printed (their text without the
    leading newline and sign).  The informational prints are not recorded.
    Making the directory and writing a file are taken to succeed.  A run
    stops at the first exception, with the effects it had by then. *)
Inductive effect : Type :=
| MakeDirs (path : string)
| ToCsv (path : string)
| SavePlot (path : string)
| Warn (msg : string).

Definition io (A : Type) : Type := (list effect * result A)%type.

Definition ret {A} (a : A) : io A := ([], Ok a).
Definition tell (e : effect) : io unit := ([e], Ok tt).
Definition raise {A} (e : exn) : io A := ([], Raise e).
Definition lift {A} (r : result A) : io A := ([], r).

Definition bind_io {A B} (m : io A) (k : A -> io B) : io B :=
  match m with
  | (es, Ok a) => let (es', r) := k a in (es ++ es', r)
  | (es, Raise e) => (es, Raise e)
  end.

Notation "x <~ m ;; k" := (bind_io m (fun x => k))
  (at level 61, m at next level, right associativity).
Notation "m ;;; k" := (bind_io m (fun _ => k))
  (at level 61, right associativity).

Definition input_file : string := "titanic_cleaned.csv".
Definition out_dir : string := "eda_outputs".

(** [os.path.join] *)
Definition path_join (d f : string) : string := d ++ "/" ++ f.

(** The files the run can see: [os.path.exists] and [pd.read_csv]. *)
Record World : Type := mkWorld {
  path_exists : string -> bool;
  read_csv : string -> DataFrame
}.

Definition missing_input_message : string :=
  "❌ '" ++ input_file ++
  "' not found. Make sure it is in the same folder as this script.".

(** The calls into the plotting and binning libraries.  Each can raise, on
    conditions that belong to the library; what it does is a parameter. *)
Inductive lib_call : Type :=
| DrawHeatmap
| DrawHistograms
| DrawSexCounts
| DrawSurvivalBySex
| CutAgeBins
| DrawSurvivalByAge.

Section Analyzer.

Variable library : lib_call -> DataFrame -> result unit.
Variable parse_number : string -> option Qc.

Definition age_bins_step (df : DataFrame) (surv_col : option string) : io unit :=
  match colname df "age", surv_col with
  | Some ag, Some sv =>
      a <~ lift (getitem df ag) ;;
      s <~ lift (getitem df sv) ;;
      match complete_pairs (to_numeric parse_number a)
                           (to_numeric parse_number s) with
      | [] => tell (Warn "No valid rows for age/survived line plot after dropping NaNs.")
      | _ =>
          lift (library CutAgeBins df) ;;;
          lift (library DrawSurvivalByAge df) ;;;
          tell (SavePlot (path_join out_dir "line_survival_rate_by_age_bins.png")) ;;;
          tell (ToCsv (path_join out_dir "survival_rate_by_age_bins.csv"))
      end
  | _, _ => tell (Warn "Need both 'age' and 'survived' for line plot. Skipping.")
  end.

Definition analyze (df : DataFrame) : io unit :=
  tell (MakeDirs out_dir) ;;;
  (match num_cols df with
   | [] => tell (Warn "No numeric columns found.")
   | _ => tell (ToCsv (path_join out_dir "basic_stats_numeric.csv"))
   end) ;;;
  tell (ToCsv (path_join out_dir "outlier_report_iqr.csv")) ;;;
  (match correlation_step df with
   | CorrMatrix _ _ =>
       tell (ToCsv (path_join out_dir "correlation_matrix.csv")) ;;;
       lift (library DrawHeatmap df) ;;;
       tell (SavePlot (path_join out_dir "correlation_heatmap.png"))
   | CorrSkipped w => tell (Warn w)
   end) ;;;
  (match num_cols df with
   | [] => ret tt
   | _ =>
       lift (library DrawHistograms df) ;;;
       tell (SavePlot (path_join out_dir "histograms_numeric.png"))
   end) ;;;
  (match colname df "sex" with
   | Some _ =>
       lift (library DrawSexCounts df) ;;;
       tell (SavePlot (path_join out_dir "bar_sex_counts.png"))
   | None => tell (Warn "'sex' column not found. Skipping sex bar chart.")
   end) ;;;
  p <~ lift (survival_by_sex parse_number df) ;;
  (match snd p with
   | Rates _ =>
       lift (library DrawSurvivalBySex (fst p)) ;;;
       tell (SavePlot (path_join out_dir "bar_survival_rate_by_sex.png")) ;;;
       tell (ToCsv (path_join out_dir "survival_rate_by_sex.csv"))
   | RateSkipped w => tell (Warn w)
   end) ;;;
  age_bins_step (fst p) (colname df "survived").

(** [main] of the analyzer. *)
Definition eda_main (w : World) : io unit :=
  (if negb (path_exists w input_file)
   then raise (FileNotFoundError missing_input_message)
   else ret tt) ;;;
  analyze (read_csv w input_file).

End Analyzer.

(** *** Auxiliary notions and sample frames *)

(** Sample frames. *)
Definition qz (z : Z) : option Qc := Some (Qc_of_Z z).

Definition demo_passengers : DataFrame :=
  [ mkSeries "Age" (Numeric [qz 22; None; qz 30; qz 41]);
    mkSeries "Sex" (Object [Some " Male"; Some "female"; None; Some "FEMALE "]);
    mkSeries "Cabin" (Object [None; None; Some "C85"; None]) ].

Definition demo_header_only : DataFrame :=
  [ mkSeries "Sex" (Object []); mkSeries "Age" (Object []) ].

Definition seven_of_ten : Series :=
  mkSeries "Cabin"
    (Object [None; None; None; None; None; None; None;
             Some "C85"; Some "E46"; Some "B42"]).

Definition six_of_ten : Series :=
  mkSeries "Deck"
    (Object [None; None; None; None; None; None;
             Some "A"; Some "C"; Some "E"; Some "B"]).

Definition demo_lowercase_header : DataFrame :=
  [ mkSeries "sex" (Object [Some " MALE"]) ].

Definition demo_trailing_space : DataFrame :=
  [ mkSeries "Name" (Object [Some "a "; Some "a"]) ].

(** Whether the values of a list are not all the same. *)
Definition varies (p : list Qc) : bool :=
  match p with
  | [] => false
  | a :: p' => existsb (fun b => negb (Qceqb a b)) p'
  end.

Definition demo_outlier_column : Series :=
  mkSeries "Fare" (Numeric (map qz [1; 2; 2; 3; 3; 3; 4; 4; 5; 100]%Z)).

Definition demo_outlier_values : list Qc :=
  dropna (numeric_values demo_outlier_column).

Definition demo_four_rows : DataFrame :=
  [ mkSeries "sex" (Object [Some "male"; Some "male"; Some "female"; Some "female"]);
    mkSeries "survived" (Numeric [qz 0; qz 1; qz 1; qz 1]) ].

Definition demo_no_outcome : DataFrame :=
  [ mkSeries "Sex" (Object [Some "male"; Some "female"]) ].

Definition demo_constant_column : DataFrame :=
  [ mkSeries "Pclass" (Numeric [qz 1; qz 1]);
    mkSeries "Fare" (Numeric [qz 1; qz 2]) ].

Definition no_parse : string -> option Qc := fun _ => None.

Definition demo_library : lib_call -> DataFrame -> result unit :=
  fun _ _ => Ok tt.

Definition demo_world_without_input : World :=
  mkWorld (fun _ => false) (fun _ => []).

Definition demo_world_with_input : World :=
  mkWorld (fun p => String.eqb p input_file) (fun _ => demo_four_rows).

(** The claim that the first quartile of the sample column is 2, with the
    figures that follow from it. *)
Definition quartile_figures_as_claimed : Prop :=
  Q1 demo_outlier_values = Qc_of_Z 2
  /\ Q3 demo_outlier_values = Qc_of_Z 4
  /\ IQR demo_outlier_values = Qc_of_Z 2
  /\ lower_fence demo_outlier_values = Qc_of_Z (-1)
  /\ upper_fence demo_outlier_values = Qc_of_Z 7
  /\ outlier_count demo_outlier_column = 1.

(** A column to stand for a position outside a frame. *)
Definition no_column : Series := mkSeries "" (Numeric []).

Definition demo_repeated_rows : DataFrame :=
  [ mkSeries "Pclass" (Numeric [qz 1; qz 3; qz 1; qz 3]);
    mkSeries "Name" (Object [Some "Ann"; Some "Bob"; Some "Ann"; Some "Bob "]) ].

Definition demo_padded : Series :=
  mkSeries "Name" (Object [Some "  Braund, Mr. Owen "; None; Some "Heikkinen"]).

(** An effect that touches nothing outside the output directory. *)
Definition inside_out_dir (e : effect) : bool :=
  match e with
  | MakeDirs p => String.eqb p out_dir
  | ToCsv p => String.prefix "eda_outputs/" p
  | SavePlot p => String.prefix "eda_outputs/" p
  | Warn _ => true
  end.

(** A run that stays inside the output directory and fails, if it fails,
    on an exception of a library call. *)
Definition contained (library : lib_call -> DataFrame -> result unit)
    (m : io unit) : Prop :=
  forallb inside_out_dir (fst m) = true
  /\ match snd m with
     | Ok _ => True
     | Raise e => exists k d, library k d = Raise e
     end.

(** [series.min()] and [series.max()] over the present values. *)
Definition minQc (l : list Qc) : option Qc :=
  match l with
  | [] => None
  | x :: l' => Some (fold_right (fun a m => if Qcleb a m then a else m) x l')
  end.

Definition maxQc (l : list Qc) : option Qc :=
  match l with
  | [] => None
  | x :: l' => Some (fold_right (fun a m => if Qcleb a m then m else a) x l')
  end.

(** One line of the table of basic statistics, step 3 of the analyzer. *)
Record stats_row : Type := mkStats {
  st_mean : option Qc;
  st_median : option Qc;
  st_min : option Qc;
  st_max : option Qc
}.

Definition describe (c : Series) : stats_row :=
  let v := numeric_values c in
  mkStats (mean (dropna v)) (median v) (minQc (dropna v)) (maxQc (dropna v)).

(** [frame.sort_values(by=key, ascending=False)]: present keys in
    descending order, NaN keys last. *)
Definition sort_desc_by {R} (key : R -> option Qc) (s : list R) : list R :=
  sort (fun a b =>
          match key a, key b with
          | Some x, Some y => Qcleb y x
          | _, _ => true
          end)
       (filter (fun r => negb (is_none (key r))) s)
  ++ filter (fun r => is_none (key r)) s.

Definition stats_table (df : DataFrame) : list (string * stats_row) :=
  sort_desc_by (fun r => st_mean (snd r))
    (map (fun c => (name c, describe c)) (num_cols df)).

(** Descending order of optional values, NaN after every number. *)
Definition desc_nan_last (x y : option Qc) : Prop :=
  match x, y with
  | Some a, Some b => (b <= a)%Qc
  | Some _, None => True
  | None, Some _ => False
  | None, None => True
  end.

End Analysis.

(** ** Sample frames with infinite values *)

Definition xz (z : Z) : option xnum := Some (Fin (Qc_of_Z z)).

(** The table read from the lines [Id,A], [1,-inf], [2,inf], [3,]. *)
Definition demo_infinite_middle : @DataFrame xnum :=
  [ mkSeries "Id" (Numeric [xz 1; xz 2; xz 3]);
    mkSeries "A" (Numeric [Some NegInf; Some PosInf; None]) ].

(** The claim that a column of the cleaned table has no missing value
    unless all its values are missing. *)
Definition no_missing_unless_all_missing : Prop :=
  forall (df out : @DataFrame xnum),
    clean df = Ok out ->
    forall c, In c out -> missing_count c = 0 \/ missing_count c = size c.

(** * Properties of the cleaner *)

(** Equality of computed structures, down to their rational leaves. *)
Ltac qc_equal :=
  repeat match goal with
         | |- @eq Qc _ _ => apply Qc_is_canon; reflexivity
         | |- _ => reflexivity
         | |- _ => progress f_equal
         end.

Section CleanerFacts.

Context {num : Type} {number : Number num}.

Abbreviation coldata := (@coldata num).
Abbreviation Series := (@Series num).
Abbreviation DataFrame := (@DataFrame num).
Abbreviation cell := (@cell num).

(** ** Rationals *)

Lemma Qceqb_eq (x y : Qc) : Qceqb x y = true <-> x = y.
Proof.
  unfold Qceqb. rewrite Qeq_bool_iff. split.
  - apply Qc_is_canon.
  - intros ->. reflexivity.
Qed.

Lemma Qcltb_lt (x y : Qc) : Qcltb x y = true <-> (x < y)%Qc.
Proof.
  unfold Qcltb, Qclt. rewrite negb_true_iff, <- not_true_iff_false, Qle_bool_iff.
  split; [apply Qnot_le_lt | apply Qlt_not_le].
Qed.

Lemma Qcleb_le (x y : Qc) : Qcleb x y = true <-> (x <= y)%Qc.
Proof. unfold Qcleb, Qcle. apply Qle_bool_iff. Qed.

Lemma inject_nat_pos (n : nat) : 0 < n -> (0 < inject_Z (Z.of_nat n))%Q.
Proof.
  intro H. change 0%Q with (inject_Z 0). rewrite <- Zlt_Qlt. lia.
Qed.

(** [100 * m / n > 60] exactly when [5 m > 3 n]. *)
Lemma percent_above_60 (m n : nat) :
  0 < n ->
  Qcltb (Qc_of_nat 60) (Qc_of_nat m / Qc_of_nat n * Qc_of_nat 100)%Qc = true
  <-> 3 * n < 5 * m.
Proof.
  intros Hn. rewrite Qcltb_lt. unfold Qclt.
  unfold Qc_of_nat, Qcmult, Qcdiv, Qcinv, Qcmult.
  cbn [this Q2Qc]. rewrite !Qred_correct.
  set (mq := inject_Z (Z.of_nat m)). set (nq := inject_Z (Z.of_nat n)).
  assert (Hnq : (0 < nq)%Q) by (apply inject_nat_pos; exact Hn).
  assert (E : (mq * / nq * inject_Z (Z.of_nat 100) * nq == mq * inject_Z 100)%Q).
  { change (Z.of_nat 100) with 100%Z. field.
    intro H. rewrite H in Hnq. apply (Qlt_irrefl _ Hnq). }
  assert (K : (inject_Z (Z.of_nat 60) * nq < mq * inject_Z 100)%Q
              <-> 3 * n < 5 * m).
  { unfold mq, nq. rewrite <- !inject_Z_mult, <- Zlt_Qlt. lia. }
  rewrite <- K, <- E. rewrite Qmult_lt_r by exact Hnq. reflexivity.
Qed.

(** [m / n > 3/5] exactly when [5 m > 3 n]. *)
Lemma fraction_above_three_fifths (m n : nat) :
  0 < n ->
  (Q2Qc (3 # 5) < Qc_of_nat m / Qc_of_nat n)%Qc <-> 3 * n < 5 * m.
Proof.
  intros Hn. unfold Qclt.
  unfold Qc_of_nat, Qcdiv, Qcinv, Qcmult.
  cbn [this Q2Qc]. rewrite !Qred_correct.
  set (mq := inject_Z (Z.of_nat m)). set (nq := inject_Z (Z.of_nat n)).
  assert (Hnq : (0 < nq)%Q) by (apply inject_nat_pos; exact Hn).
  assert (E : (mq * / nq * nq * inject_Z 5 == mq * inject_Z 5)%Q).
  { field. intro H. rewrite H in Hnq. apply (Qlt_irrefl _ Hnq). }
  assert (K : (inject_Z 3 * nq < mq * inject_Z 5)%Q <-> 3 * n < 5 * m).
  { unfold mq, nq. rewrite <- !inject_Z_mult, <- Zlt_Qlt. lia. }
  rewrite <- K, <- E.
  assert (T : ((3 # 5) * nq * inject_Z 5 == inject_Z 3 * nq)%Q) by field.
  rewrite <- T.
  rewrite Qmult_lt_r by reflexivity.
  rewrite Qmult_lt_r by exact Hnq. reflexivity.
Qed.

(** ** Counting missing values *)

Lemma count_true_le (l : list bool) : count_true l <= List.length l.
Proof. unfold count_true. apply filter_length_le. Qed.

Lemma missing_le_size (c : Series) : missing_count c <= size c.
Proof. apply count_true_le. Qed.

Lemma count_true_0_iff (l : list bool) :
  count_true l = 0 <-> existsb (fun b : bool => b) l = false.
Proof.
  unfold count_true. induction l as [|b l IH]; simpl.
  - tauto.
  - destruct b; simpl.
    + split; discriminate.
    + exact IH.
Qed.

Lemma missing_0_iff (c : Series) : missing_count c = 0 <-> isna_any c = false.
Proof. apply count_true_0_iff. Qed.

Lemma dropna_length {A} (v : list (option A)) :
  List.length (dropna v) + count_true (map is_none v) = List.length v.
Proof.
  unfold count_true. induction v as [|[a|] v IH]; simpl; lia.
Qed.

Lemma fillna_no_missing {A} (x : A) (v : list (option A)) :
  count_true (map is_none (fillna x v)) = 0.
Proof.
  unfold count_true, fillna. induction v as [|[a|] v IH]; simpl; auto.
Qed.

Lemma above_threshold_iff (c : Series) :
  above_threshold c = true <-> 3 * size c < 5 * missing_count c.
Proof.
  unfold above_threshold, missing_ratio.
  pose proof (missing_le_size c) as Hle.
  destruct (size c) as [|n] eqn:E.
  - split; [discriminate | lia].
  - apply percent_above_60. lia.
Qed.

Lemma exceeds_threshold_iff (c : Series) :
  exceeds_threshold c <-> 3 * size c < 5 * missing_count c.
Proof.
  unfold exceeds_threshold, missing_fraction.
  pose proof (missing_le_size c) as Hle.
  destruct (size c) as [|n] eqn:E.
  - split; [tauto | lia].
  - apply fraction_above_three_fifths. lia.
Qed.

(** ** The result monad *)

Lemma mapM_ok_map {A B} (f : A -> result B) (g : A -> B) (l : list A) :
  (forall a, In a l -> f a = Ok (g a)) -> mapM f l = Ok (map g l).
Proof.
  induction l as [|a l IH]; intros H; simpl.
  - reflexivity.
  - rewrite (H a) by (left; reflexivity). simpl.
    rewrite IH by (intros b Hb; apply H; right; exact Hb). reflexivity.
Qed.

Lemma mapM_ok_inv {A B} (f : A -> result B) (l : list A) (out : list B) :
  mapM f l = Ok out -> Forall2 (fun a b => f a = Ok b) l out.
Proof.
  revert out. induction l as [|a l IH]; simpl; intros out H.
  - injection H as <-. constructor.
  - destruct (f a) as [b|e] eqn:Ea; simpl in H; [|discriminate].
    destruct (mapM f l) as [bs|e] eqn:El; simpl in H; [|discriminate].
    injection H as <-. constructor; [exact Ea | apply IH; reflexivity].
Qed.

Lemma Forall2_in_left {A B} (R : A -> B -> Prop) (l : list A) (out : list B) (a : A) :
  Forall2 R l out -> In a l -> exists b, In b out /\ R a b.
Proof.
  induction 1 as [|x y l out Hxy _ IH]; simpl; intros Ha.
  - contradiction.
  - destruct Ha as [<-|Ha].
    + exists y. auto.
    + destruct (IH Ha) as [b [Hb Hr]]. exists b. auto.
Qed.

Lemma Forall2_map_eq {A B} (g : A -> B) (l : list A) (out : list B) :
  Forall2 (fun a b => b = g a) l out -> out = map g l.
Proof. induction 1; simpl; congruence. Qed.

(** ** Text normalization *)

Lemma str_map_ok (f : string -> string) (c : Series) :
  is_numeric c = false -> str_map f c = Ok (text_map f c).
Proof.
  unfold is_numeric, str_map, text_map. destruct (data c); intros H;
    [discriminate | reflexivity | reflexivity].
Qed.

Lemma str_map_inv (f : string -> string) (c b : Series) :
  str_map f c = Ok b -> is_numeric c = false /\ b = text_map f c.
Proof.
  unfold is_numeric, str_map, text_map. destruct (data c); intros H;
    [discriminate | |]; injection H as <-; auto.
Qed.

Lemma text_map_name f (c : Series) : name (text_map f c) = name c.
Proof. unfold text_map. destruct (data c); reflexivity. Qed.

Lemma text_map_numeric f (c : Series) : is_numeric (text_map f c) = is_numeric c.
Proof. unfold text_map, is_numeric. destruct (data c) eqn:E; simpl; rewrite ?E; reflexivity. Qed.

Lemma replace_blank_name (c : Series) : name (replace_blank c) = name c.
Proof. unfold replace_blank. destruct (data c); reflexivity. Qed.

Lemma on_name_name nm g (c : Series) :
  (forall c, name (g c) = name c) -> name (on_name nm g c) = name c.
Proof. intros H. unfold on_name. destruct (String.eqb (name c) nm); auto. Qed.

Lemma named_cleanup_steps (c : Series) :
  on_name "Embarked" replace_blank
    (on_name "Ticket" (text_map PyStr.upper)
       (on_name "Sex" (text_map PyStr.lower) c)) = named_cleanup c.
Proof.
  unfold named_cleanup, on_name.
  destruct (String.eqb (name c) "Sex") eqn:ES.
  - apply String.eqb_eq in ES. rewrite text_map_name, ES.
    change (String.eqb "Sex" "Ticket") with false. cbv iota.
    rewrite text_map_name, ES. reflexivity.
  - destruct (String.eqb (name c) "Ticket") eqn:ET.
    + apply String.eqb_eq in ET. rewrite text_map_name, ET. reflexivity.
    + reflexivity.
Qed.

Lemma text_named_iff (df : DataFrame) :
  text_named df = true <->
  forall c, In c df -> name c = "Sex" \/ name c = "Ticket" -> is_numeric c = false.
Proof.
  unfold text_named. rewrite forallb_forall. split; intros H c Hc.
  - specialize (H c Hc). intros [E|E]; rewrite E in H; simpl in H;
      apply negb_true_iff in H; exact H.
  - destruct (String.eqb (name c) "Sex") eqn:ES; simpl.
    + apply negb_true_iff, (H c Hc). left. apply String.eqb_eq, ES.
    + destruct (String.eqb (name c) "Ticket") eqn:ET; simpl; [|reflexivity].
      apply negb_true_iff, (H c Hc). right. apply String.eqb_eq, ET.
Qed.

(** The named clean-ups succeed exactly on frames whose Sex and Ticket
    columns are text, and then act column by column. *)
Lemma normalize_named_ok (d : DataFrame) :
  text_named d = true -> normalize_named d = Ok (map named_cleanup d).
Proof.
  intros H. rewrite text_named_iff in H. unfold normalize_named, on_column.
  rewrite (mapM_ok_map _ (on_name "Sex" (text_map PyStr.lower))).
  2:{ intros c Hc. unfold on_name. destruct (String.eqb (name c) "Sex") eqn:E; auto.
      apply str_map_ok, (H c Hc). left. apply String.eqb_eq, E. }
  simpl.
  rewrite (mapM_ok_map _ (on_name "Ticket" (text_map PyStr.upper))).
  2:{ intros c' Hc'. apply in_map_iff in Hc' as (c & <- & Hc).
      set (c1 := on_name "Sex" (text_map PyStr.lower) c).
      assert (N1 : name c1 = name c) by (apply on_name_name, text_map_name).
      assert (T1 : name c = "Ticket" -> is_numeric c1 = false).
      { intros ET. unfold c1, on_name. rewrite ET.
        change (String.eqb "Ticket" "Sex") with false. cbv iota.
        apply (H c Hc). right. exact ET. }
      unfold on_name at 1. rewrite N1.
      destruct (String.eqb (name c) "Ticket") eqn:E; auto.
      apply str_map_ok, T1, String.eqb_eq, E. }
  simpl.
  rewrite (mapM_ok_map _ (on_name "Embarked" replace_blank)).
  2:{ intros c _. unfold on_name. destruct (String.eqb (name c) "Embarked"); reflexivity. }
  rewrite !map_map. f_equal. apply map_ext. intros c. apply named_cleanup_steps.
Qed.

Lemma on_column_inv nm f g (d out : DataFrame) :
  (forall c b, f c = Ok b -> b = g c) ->
  on_column nm f d = Ok out -> out = map (on_name nm g) d.
Proof.
  intros Hf H. apply mapM_ok_inv in H. apply Forall2_map_eq.
  eapply Forall2_impl; [|exact H]. cbn beta. intros c b.
  unfold on_name. destruct (String.eqb (name c) nm); intros E.
  - apply Hf, E.
  - injection E as <-. reflexivity.
Qed.

Lemma on_column_text nm f (d out : DataFrame) :
  on_column nm (str_map f) d = Ok out ->
  forall c, In c d -> name c = nm -> is_numeric c = false.
Proof.
  intros H c Hc E. apply mapM_ok_inv in H.
  destruct (Forall2_in_left _ _ _ _ H Hc) as [b [_ Hb]]. cbn beta in Hb.
  rewrite <- E, String.eqb_refl in Hb. apply str_map_inv in Hb. tauto.
Qed.

Lemma forallb_map_ext {A} (p : A -> bool) (g : A -> A) (l : list A) :
  (forall a, p (g a) = p a) -> forallb p (map g l) = forallb p l.
Proof.
  intros H. induction l as [|a l IH]; simpl; [reflexivity|].
  rewrite H, IH. reflexivity.
Qed.

Lemma select_rows_name m (c : Series) : name (select_rows m c) = name c.
Proof. reflexivity. Qed.

Lemma select_rows_numeric m (c : Series) : is_numeric (select_rows m c) = is_numeric c.
Proof. unfold is_numeric, select_rows. simpl. destruct (data c); reflexivity. Qed.

Lemma strip_column_name (c : Series) : name (strip_column c) = name c.
Proof. unfold strip_column. destruct (data c); reflexivity. Qed.

Lemma strip_column_numeric (c : Series) : is_numeric (strip_column c) = is_numeric c.
Proof.
  unfold is_numeric, strip_column. destruct (data c) eqn:E; simpl; rewrite ?E; reflexivity.
Qed.

Lemma text_named_prepared (df : DataFrame) :
  text_named (strip_text_cols (drop_duplicates df)) = text_named df.
Proof.
  unfold text_named, strip_text_cols, drop_duplicates.
  rewrite map_map. apply forallb_map_ext. intros c.
  rewrite strip_column_name, strip_column_numeric, select_rows_numeric.
  reflexivity.
Qed.

Lemma normalize_ok (df : DataFrame) :
  text_named df = true ->
  normalize df = Ok (map named_cleanup (strip_text_cols (drop_duplicates df))).
Proof.
  intros H. unfold normalize. apply normalize_named_ok.
  rewrite text_named_prepared. exact H.
Qed.

(** ** Sorting *)

Section SortFacts.

Context {A : Type} (leb : A -> A -> bool).

Lemma insert_sorted_length x l :
  List.length (insert_sorted leb x l) = S (List.length l).
Proof.
  induction l as [|y l IH]; simpl; [reflexivity|].
  destruct (leb x y); simpl; rewrite ?IH; reflexivity.
Qed.

Lemma sort_length l : List.length (sort leb l) = List.length l.
Proof.
  induction l as [|x l IH]; simpl; [reflexivity|].
  rewrite insert_sorted_length, IH. reflexivity.
Qed.

Lemma insert_sorted_in x y l :
  In y (insert_sorted leb x l) <-> y = x \/ In y l.
Proof.
  induction l as [|z l IH]; simpl.
  - intuition.
  - destruct (leb x z); simpl; rewrite ?IH; intuition.
Qed.

Lemma sort_in y l : In y (sort leb l) <-> In y l.
Proof.
  induction l as [|x l IH]; simpl; [tauto|].
  rewrite insert_sorted_in, IH. intuition.
Qed.

End SortFacts.

(** ** Missing-value handling *)

(** Where the mean of two values always exists, so does the median of a
    column that has a value. *)
Lemma median_some (v : list (option num)) :
  midpoint_total num -> dropna v <> [] -> exists med, median v = Some med.
Proof.
  intros T H. unfold median.
  destruct (List.length (sort num_leb (dropna v))) eqn:E.
  - rewrite sort_length in E. destruct (dropna v); [contradiction | discriminate].
  - destruct (Nat.even (S n)).
    + destruct (midpoint _ _) as [m|] eqn:Em; [eexists; reflexivity|].
      exfalso. exact (T _ _ Em).
    + eexists; reflexivity.
Qed.

Lemma fill_numeric_col_name (c : Series) : name (fill_numeric_col c) = name c.
Proof.
  unfold fill_numeric_col. destruct (data c); try reflexivity.
  destruct (isna_any c); try reflexivity. destruct (median v); reflexivity.
Qed.

Lemma fill_numeric_col_numeric (c : Series) : is_numeric (fill_numeric_col c) = is_numeric c.
Proof.
  unfold fill_numeric_col, is_numeric. destruct (data c) eqn:E; rewrite ?E; try reflexivity.
  destruct (isna_any c); rewrite ?E; try reflexivity.
  destruct (median v); simpl; rewrite ?E; reflexivity.
Qed.

Lemma fill_numeric_col_text (c : Series) : is_numeric c = false -> fill_numeric_col c = c.
Proof.
  unfold fill_numeric_col, is_numeric. destruct (data c); [discriminate | reflexivity | reflexivity].
Qed.

Lemma fill_numeric_col_filled (c : Series) :
  is_numeric c = true ->
  missing_count c = 0 \/ missing_count c < size c ->
  filled_or_no_median (fill_numeric_col c).
Proof.
  unfold filled_or_no_median, fill_numeric_col, is_numeric. intros Hn Hf.
  destruct (data c) as [v| |] eqn:E; try discriminate.
  destruct (isna_any c) eqn:Ea.
  - assert (Hm : missing_count c <> 0).
    { rewrite missing_0_iff, Ea. discriminate. }
    destruct Hf as [Hf|Hf]; [contradiction|].
    assert (Hd : dropna v <> []).
    { pose proof (dropna_length v) as L.
      unfold missing_count, size, isna in Hf. rewrite E in Hf.
      rewrite length_map in Hf.
      intros Hd. rewrite Hd in L. simpl in L. lia. }
    destruct (median v) as [med|] eqn:Em.
    + left. unfold missing_count, isna. simpl. apply fillna_no_missing.
    + right. exists v. auto.
  - left. apply missing_0_iff, Ea.
Qed.

Lemma fill_categorical_col_name (c : Series) : name (fill_categorical_col c) = name c.
Proof.
  unfold fill_categorical_col. destruct (data c); try reflexivity;
    destruct (isna_any c); reflexivity.
Qed.

Lemma fill_categorical_col_numeric (c : Series) :
  is_numeric c = true -> fill_categorical_col c = c.
Proof.
  unfold fill_categorical_col, is_numeric. destruct (data c); [reflexivity | discriminate | discriminate].
Qed.

Lemma fill_categorical_col_filled (c : Series) :
  is_numeric c = false -> missing_count (fill_categorical_col c) = 0.
Proof.
  unfold fill_categorical_col, is_numeric. intros Hn.
  destruct (data c) as [|v|v] eqn:E; try discriminate.
  all: destruct (isna_any c) eqn:Ea; [| apply missing_0_iff, Ea].
  all: unfold missing_count, isna; simpl; apply fillna_no_missing.
Qed.

Lemma drop_high_missing_in (d : DataFrame) (c : Series) :
  In c (drop_high_missing d) <-> In c d /\ above_threshold c = false.
Proof.
  unfold drop_high_missing. rewrite filter_In, negb_true_iff. reflexivity.
Qed.

Lemma kept_column_fillable (d : DataFrame) (c : Series) :
  In c (drop_high_missing d) -> missing_count c = 0 \/ missing_count c < size c.
Proof.
  rewrite drop_high_missing_in. intros [_ H].
  apply not_true_iff_false in H. rewrite above_threshold_iff in H.
  pose proof (missing_le_size c). lia.
Qed.

Lemma handle_missing_outcome (d : DataFrame) (c : Series) :
  In c (handle_missing d) -> filled_or_no_median c.
Proof.
  unfold handle_missing, fill_categorical, fill_numeric.
  rewrite map_map. intros H. apply in_map_iff in H as (c0 & <- & H0).
  apply kept_column_fillable in H0.
  destruct (is_numeric c0) eqn:En.
  - rewrite fill_categorical_col_numeric
      by (rewrite fill_numeric_col_numeric; exact En).
    apply fill_numeric_col_filled; assumption.
  - left. apply fill_categorical_col_filled.
    rewrite fill_numeric_col_numeric. exact En.
Qed.

Lemma no_median_partial (c : Series) :
  midpoint_total num -> filled_or_no_median c -> missing_count c = 0.
Proof.
  intros T [H|(v & _ & Hd & Hm)]; [exact H|].
  destruct (median_some v T Hd) as [med E]. congruence.
Qed.

Lemma handle_missing_no_missing (d : DataFrame) (c : Series) :
  midpoint_total num -> In c (handle_missing d) -> missing_count c = 0.
Proof.
  intros T H. apply no_median_partial; [exact T|].
  apply (handle_missing_outcome d), H.
Qed.

Lemma filter_all {A} (f : A -> bool) (l : list A) :
  (forall a, In a l -> f a = true) -> filter f l = l.
Proof.
  induction l as [|a l IH]; simpl; intros H; [reflexivity|].
  rewrite (H a) by auto. f_equal. apply IH. auto.
Qed.

Lemma map_id_on {A} (g : A -> A) (l : list A) :
  (forall a, In a l -> g a = a) -> map g l = l.
Proof.
  induction l as [|a l IH]; simpl; intros H; [reflexivity|].
  rewrite (H a) by auto. f_equal. apply IH. auto.
Qed.

Lemma fill_numeric_col_complete (c : Series) : missing_count c = 0 -> fill_numeric_col c = c.
Proof.
  rewrite missing_0_iff. unfold fill_numeric_col. intros ->.
  destruct (data c); reflexivity.
Qed.

Lemma fill_categorical_col_complete (c : Series) :
  missing_count c = 0 -> fill_categorical_col c = c.
Proof.
  rewrite missing_0_iff. unfold fill_categorical_col. intros ->.
  destruct (data c); reflexivity.
Qed.

(** A frame without missing values goes through step 6 unchanged. *)
Lemma handle_missing_complete (d : DataFrame) :
  (forall c, In c d -> missing_count c = 0) -> handle_missing d = d.
Proof.
  intros H. unfold handle_missing, drop_high_missing.
  rewrite filter_all.
  - unfold fill_numeric. rewrite (map_id_on fill_numeric_col).
    + apply map_id_on. intros c Hc. apply fill_categorical_col_complete, H, Hc.
    + intros c Hc. apply fill_numeric_col_complete, H, Hc.
  - intros c Hc. apply negb_true_iff, not_true_iff_false.
    rewrite above_threshold_iff, (H c Hc). lia.
Qed.

(** C1 (as the code has it): after the whole cleaning transformation (which
    produces an output whenever the columns named Sex and Ticket are text
    columns) every column of the output has a missing-value count of 0,
    except a numeric column that has values but whose median could not be
    computed; where the mean of two numbers always exists there is no such
    column. *)
Theorem clean_no_missing_unless_no_median (df : DataFrame) :
  text_named df = true ->
  exists out,
    clean df = Ok out
    /\ (forall c, In c out ->
          missing_count c = 0
          \/ exists v, data c = Numeric v /\ dropna v <> [] /\ median v = None)
    /\ (midpoint_total num -> forall c, In c out -> missing_count c = 0).
Proof.
  intros H. unfold clean. rewrite (normalize_ok df H). simpl.
  eexists. split; [reflexivity|]. split.
  - intros c Hc. exact (handle_missing_outcome _ _ Hc).
  - intros T c Hc. exact (handle_missing_no_missing _ _ T Hc).
Qed.

(** C3: the column-elimination step drops a column exactly when its
    fraction of missing values is strictly above 0.60; a column with 7 of 10
    values missing goes, one with 6 of 10 stays. *)
Theorem drop_iff_fraction_exceeds :
  (forall (df : DataFrame) c,
      In c (drop_high_missing df) <-> In c df /\ ~ exceeds_threshold c)
  /\ (forall (df : DataFrame) c, In c df -> size c = 10 -> missing_count c = 7 ->
                  ~ In c (drop_high_missing df))
  /\ (forall (df : DataFrame) c, In c df -> size c = 10 -> missing_count c = 6 ->
                  In c (drop_high_missing df)).
Proof.
  assert (G : forall (df : DataFrame) c,
             In c (drop_high_missing df) <-> In c df /\ ~ exceeds_threshold c).
  { intros df c. rewrite drop_high_missing_in, exceeds_threshold_iff.
    rewrite <- not_true_iff_false, above_threshold_iff. reflexivity. }
  split; [exact G|]. split; intros df c Hc Hs Hm; rewrite G, exceeds_threshold_iff, Hs, Hm.
  - intros [_ K]. apply K. lia.
  - split; [exact Hc | lia].
Qed.

(** ** Sizes *)

Lemma take_mask_length {A} (m : list bool) (l : list A) :
  List.length (take_mask m l) <= List.length l.
Proof.
  revert l. induction m as [|b m IH]; intros [|x l]; simpl; try lia.
  specialize (IH l). destruct b; simpl; lia.
Qed.

Lemma size_select_rows m (c : Series) : size (select_rows m c) <= size c.
Proof.
  unfold size, isna, select_rows. simpl.
  destruct (data c); rewrite !length_map; apply take_mask_length.
Qed.

Lemma size_strip_column (c : Series) : size (strip_column c) = size c.
Proof.
  destruct c as [nm [v|v|v]]; unfold size, isna, strip_column; simpl;
    rewrite ?length_map; reflexivity.
Qed.

Lemma size_text_map f (c : Series) : size (text_map f c) = size c.
Proof.
  destruct c as [nm [v|v|v]]; unfold size, isna, text_map; simpl;
    rewrite ?length_map; reflexivity.
Qed.

Lemma size_replace_blank (c : Series) : size (replace_blank c) = size c.
Proof.
  destruct c as [nm [v|v|v]]; unfold size, isna, replace_blank; simpl;
    rewrite ?length_map; reflexivity.
Qed.

Lemma size_named_cleanup (c : Series) : size (named_cleanup c) = size c.
Proof.
  unfold named_cleanup.
  destruct (String.eqb (name c) "Sex"); [apply size_text_map|].
  destruct (String.eqb (name c) "Ticket"); [apply size_text_map|].
  destruct (String.eqb (name c) "Embarked"); [apply size_replace_blank|].
  reflexivity.
Qed.

Lemma named_cleanup_name (c : Series) : name (named_cleanup c) = name c.
Proof.
  unfold named_cleanup.
  destruct (String.eqb (name c) "Sex"); [apply text_map_name|].
  destruct (String.eqb (name c) "Ticket"); [apply text_map_name|].
  destruct (String.eqb (name c) "Embarked"); [apply replace_blank_name|].
  reflexivity.
Qed.

Lemma zero_rows_iff (df : DataFrame) : zero_rows df = true <-> forall c, In c df -> size c = 0.
Proof.
  unfold zero_rows. rewrite forallb_forall. split; intros H c Hc.
  - apply Nat.eqb_eq, H, Hc.
  - apply Nat.eqb_eq, H, Hc.
Qed.

(** C9: on a table without rows the cleaning pipeline raises nothing and
    returns a table without rows, with the same columns. *)
Theorem clean_zero_rows (df : DataFrame) :
  zero_rows df = true ->
  text_named df = true ->
  exists out, clean df = Ok out /\ map name out = map name df
              /\ zero_rows out = true.
Proof.
  intros Hz Ht. rewrite zero_rows_iff in Hz.
  unfold clean. rewrite (normalize_ok df Ht). simpl.
  set (d := map named_cleanup (strip_text_cols (drop_duplicates df))).
  assert (Hd : forall c, In c d -> size c = 0).
  { intros c Hc. unfold d, strip_text_cols, drop_duplicates in Hc.
    rewrite !map_map in Hc. apply in_map_iff in Hc as (c0 & <- & Hc0).
    rewrite size_named_cleanup, size_strip_column.
    pose proof (size_select_rows (map negb (duplicated df)) c0) as L.
    rewrite (Hz c0 Hc0) in L. lia. }
  rewrite handle_missing_complete.
  - exists d. split; [reflexivity|]. split.
    + unfold d, strip_text_cols, drop_duplicates. rewrite !map_map.
      apply map_ext. intros c.
      rewrite named_cleanup_name, strip_column_name. reflexivity.
    + apply zero_rows_iff, Hd.
  - intros c Hc. pose proof (missing_le_size c) as L.
    rewrite (Hd c Hc) in L. lia.
Qed.

(** ** Selection of the named columns *)

Lemma normalize_named_inv (d out : DataFrame) :
  normalize_named d = Ok out ->
  text_named d = true /\ out = map named_cleanup d.
Proof.
  unfold normalize_named. intros H.
  destruct (on_column "Sex" (str_map PyStr.lower) d) as [d1|] eqn:E1;
    simpl in H; [|discriminate].
  destruct (on_column "Ticket" (str_map PyStr.upper) d1) as [d2|] eqn:E2;
    simpl in H; [|discriminate].
  pose proof (on_column_text _ _ _ _ E1) as T1.
  pose proof (on_column_text _ _ _ _ E2) as T2.
  apply (on_column_inv _ _ (text_map PyStr.lower)) in E1;
    [|intros c b Hb; apply str_map_inv in Hb; tauto].
  apply (on_column_inv _ _ (text_map PyStr.upper)) in E2;
    [|intros c b Hb; apply str_map_inv in Hb; tauto].
  apply (on_column_inv _ _ replace_blank) in H;
    [|intros c b Hb; injection Hb as <-; reflexivity].
  assert (Ht : text_named d = true).
  { apply text_named_iff. intros c Hc [E|E]; [apply (T1 c Hc E)|].
    assert (Hc1 : In (on_name "Sex" (text_map PyStr.lower) c) d1)
      by (rewrite E1; apply in_map, Hc).
    specialize (T2 _ Hc1).
    rewrite on_name_name in T2 by apply text_map_name.
    specialize (T2 E). unfold on_name in T2. rewrite E in T2.
    change (String.eqb "Ticket" "Sex") with false in T2. exact T2. }
  split; [exact Ht|].
  pose proof (normalize_named_ok d Ht) as K.
  unfold normalize_named in K.
  subst. rewrite !map_map. apply map_ext. intros c. apply named_cleanup_steps.
Qed.

(** C5 (as the code has it): the three clean-ups pick their column by its
    exact name, Sex, Ticket and Embarked; every other column, also one whose
    name differs from these in letter case only, is trimmed and left as it
    is. *)
Theorem normalize_by_exact_name :
  (forall df out : DataFrame,
      normalize df = Ok out ->
      out = map named_cleanup (strip_text_cols (drop_duplicates df)))
  /\ (forall c : Series, name c = "Sex" -> named_cleanup c = text_map PyStr.lower c)
  /\ (forall c : Series, name c = "Ticket" -> named_cleanup c = text_map PyStr.upper c)
  /\ (forall c : Series, name c = "Embarked" -> named_cleanup c = replace_blank c)
  /\ (forall c : Series, name c <> "Sex" -> name c <> "Ticket" -> name c <> "Embarked" ->
                named_cleanup c = c).
Proof.
  repeat split.
  - intros df out H. unfold normalize in H. apply normalize_named_inv in H. tauto.
  - intros c E. unfold named_cleanup. rewrite E. reflexivity.
  - intros c E. unfold named_cleanup. rewrite E. reflexivity.
  - intros c E. unfold named_cleanup. rewrite E. reflexivity.
  - intros c E1 E2 E3. unfold named_cleanup.
    apply String.eqb_neq in E1, E2, E3. rewrite E1, E2, E3. reflexivity.
Qed.

(** ** The order on strings *)

Lemma ascii_compare_refl (a : ascii) : Ascii.compare a a = Eq.
Proof. unfold Ascii.compare. apply N.compare_refl. Qed.

Lemma ascii_compare_lt_trans (a b c : ascii) :
  Ascii.compare a b = Lt -> Ascii.compare b c = Lt -> Ascii.compare a c = Lt.
Proof.
  unfold Ascii.compare. rewrite !N.compare_lt_iff. apply N.lt_trans.
Qed.

Lemma string_compare_refl (s : string) : String.compare s s = Eq.
Proof.
  induction s as [|a s IH]; simpl; [reflexivity|].
  rewrite ascii_compare_refl. exact IH.
Qed.

Lemma string_compare_lt_trans (s t u : string) :
  String.compare s t = Lt -> String.compare t u = Lt -> String.compare s u = Lt.
Proof.
  revert t u. induction s as [|a s IH]; intros [|b t] [|c u]; simpl;
    try discriminate; auto.
  destruct (Ascii.compare a b) eqn:Eab; try discriminate.
  - apply Ascii.compare_eq_iff in Eab. subst b.
    destruct (Ascii.compare a c); try discriminate; auto. apply IH.
  - destruct (Ascii.compare b c) eqn:Ebc; try discriminate.
    + apply Ascii.compare_eq_iff in Ebc. subst c. rewrite Eab. reflexivity.
    + rewrite (ascii_compare_lt_trans _ _ _ Eab Ebc). reflexivity.
Qed.

Lemma string_leb_refl (s : string) : String.leb s s = true.
Proof. unfold String.leb. rewrite string_compare_refl. reflexivity. Qed.

Lemma string_leb_trans (s t u : string) :
  String.leb s t = true -> String.leb t u = true -> String.leb s u = true.
Proof.
  unfold String.leb.
  destruct (String.compare s t) eqn:Est; try discriminate; intros _.
  - apply String.compare_eq_iff in Est. subst t. auto.
  - destruct (String.compare t u) eqn:Etu; try discriminate; intros _.
    + apply String.compare_eq_iff in Etu. subst u. rewrite Est. reflexivity.
    + rewrite (string_compare_lt_trans _ _ _ Est Etu). reflexivity.
Qed.

Lemma string_leb_false (s t : string) :
  String.leb s t = false -> String.leb t s = true.
Proof.
  intros H. destruct (String.leb_total s t) as [K|K]; congruence.
Qed.

(** ** The head of a sorted list is least *)

Section SortHead.

Context {A : Type} (leb : A -> A -> bool).

Hypothesis leb_refl : forall x, leb x x = true.

Hypothesis leb_trans : forall x y z, leb x y = true -> leb y z = true -> leb x z = true.

Hypothesis leb_false : forall x y, leb x y = false -> leb y x = true.

Lemma sort_head_least (l : list A) (h : A) (t : list A) :
  sort leb l = h :: t -> In h l /\ forall y, In y l -> leb h y = true.
Proof.
  revert h t. induction l as [|x l IH]; simpl; intros h t H; [discriminate|].
  destruct (sort leb l) as [|h' t'] eqn:E.
  - assert (l = []) as ->.
    { apply (f_equal (@List.length A)) in E. rewrite sort_length in E.
      destruct l; [reflexivity | discriminate]. }
    simpl in H. injection H as <- <-. split; [auto|].
    intros y [<-|[]]. apply leb_refl.
  - destruct (IH h' t' eq_refl) as [Hin Hmin]. simpl in H.
    destruct (leb x h') eqn:Exh; injection H as <- <-.
    + split; [auto|]. intros y [<-|Hy]; [apply leb_refl|].
      apply (leb_trans _ h'); [exact Exh | apply Hmin, Hy].
    + split; [auto|]. intros y [<-|Hy]; [apply leb_false, Exh | apply Hmin, Hy].
Qed.

End SortHead.

(** ** The mode *)

Lemma unique_in (x : string) (l : list string) :
  In x (unique String.eqb l) <-> In x l.
Proof.
  induction l as [|y l IH]; simpl; [tauto|].
  rewrite filter_In, IH, negb_true_iff, String.eqb_neq.
  destruct (string_dec y x) as [->|Hn]; intuition.
Qed.

Lemma filter_none {A} (f : A -> bool) (l : list A) :
  (forall a, In a l -> f a = false) -> filter f l = [].
Proof.
  induction l as [|a l IH]; simpl; intros H; [reflexivity|].
  rewrite (H a) by auto. apply IH. auto.
Qed.

Lemma occurrences_le_max (x : string) (l : list string) :
  occurrences x l <= max_count l.
Proof.
  unfold max_count.
  assert (G : forall p, In x p ->
            occurrences x l <= fold_right (fun y m => Nat.max (occurrences y l) m) 0 p).
  { induction p as [|y p IH]; simpl; [contradiction|].
    intros [->|H]; [lia | specialize (IH H); lia]. }
  destruct (in_dec string_dec x l) as [H|H]; [apply G, H|].
  unfold occurrences at 1. rewrite filter_none; [simpl; lia|].
  intros y Hy. apply String.eqb_neq. intros ->. contradiction.
Qed.

Lemma max_count_attained (l : list string) :
  l <> [] -> exists x, In x l /\ occurrences x l = max_count l.
Proof.
  unfold max_count.
  assert (G : forall p, p <> [] -> exists x, In x p /\
            occurrences x l = fold_right (fun y m => Nat.max (occurrences y l) m) 0 p).
  { induction p as [|y p IH]; [congruence|]. intros _. simpl.
    destruct p as [|z p].
    - exists y. simpl. split; [auto | lia].
    - destruct IH as [x [Hx Ex]]; [discriminate|].
      destruct (Nat.max_spec (occurrences y l)
                  (fold_right (fun y m => Nat.max (occurrences y l) m) 0 (z :: p)))
        as [[_ ->]|[_ ->]].
      + exists x. auto.
      + exists y. auto. }
  apply G.
Qed.

Lemma mode_nonempty (v : list (option string)) :
  dropna v <> [] -> mode v <> [].
Proof.
  intros H. destruct (max_count_attained _ H) as [x [Hx Ex]].
  intros E. apply (f_equal (@List.length string)) in E.
  unfold mode in E. rewrite sort_length in E. simpl in E.
  apply length_zero_iff_nil in E.
  assert (K : In x (filter (fun y => occurrences y (dropna v) =? max_count (dropna v))
                      (unique String.eqb (dropna v)))).
  { apply filter_In. split; [apply unique_in, Hx | apply Nat.eqb_eq, Ex]. }
  rewrite E in K. contradiction.
Qed.

Lemma fill_value_present (v : list (option string)) :
  dropna v <> [] -> In (fill_value v) (dropna v).
Proof.
  intros H. pose proof (mode_nonempty v H) as Hm. unfold fill_value.
  destruct (mode v) as [|h t] eqn:E; [congruence|].
  assert (Hh : In h (mode v)) by (rewrite E; left; reflexivity).
  unfold mode in Hh. apply (proj1 (sort_in _ _ _)) in Hh.
  apply filter_In in Hh as [Hu _]. apply (proj1 (unique_in _ _)), Hu.
Qed.

(** C10: when a categorical column has a present value, the value used to
    fill it is a most frequent present value, and among the most frequent
    ones it is the least in string order. *)
Theorem fill_value_least_mode (v : list (option string)) :
  dropna v <> [] ->
  In (fill_value v) (dropna v)
  /\ (forall x, occurrences x (dropna v) <= occurrences (fill_value v) (dropna v))
  /\ (forall x, In x (dropna v) ->
                occurrences x (dropna v) = occurrences (fill_value v) (dropna v) ->
                String.leb (fill_value v) x = true).
Proof.
  intros H. pose proof (mode_nonempty v H) as Hm. unfold fill_value.
  destruct (mode v) as [|h t] eqn:E; [congruence|]. clear Hm.
  unfold mode in E.
  apply (sort_head_least String.leb string_leb_refl string_leb_trans
           string_leb_false) in E.
  destruct E as [Hin Hmin]. apply filter_In in Hin as [Hu Hc].
  apply (proj1 (unique_in _ _)) in Hu. apply Nat.eqb_eq in Hc.
  split; [exact Hu|]. split.
  - intros x. rewrite Hc. apply occurrences_le_max.
  - intros x Hx Ex. apply Hmin. apply filter_In.
    split; [apply unique_in, Hx | apply Nat.eqb_eq; congruence].
Qed.

(** ** Idempotence of the text functions *)

Lemma lower_char_idem (a : ascii) :
  PyStr.lower_char (PyStr.lower_char a) = PyStr.lower_char a.
Proof. destruct a as [[|] [|] [|] [|] [|] [|] [|] [|]]; reflexivity. Qed.

Lemma upper_char_idem (a : ascii) :
  PyStr.upper_char (PyStr.upper_char a) = PyStr.upper_char a.
Proof. destruct a as [[|] [|] [|] [|] [|] [|] [|] [|]]; reflexivity. Qed.

Lemma map_chars_idem (f : ascii -> ascii) (s : string) :
  (forall a, f (f a) = f a) ->
  PyStr.map_chars f (PyStr.map_chars f s) = PyStr.map_chars f s.
Proof.
  intros H. induction s as [|a s IH]; simpl; [reflexivity|].
  rewrite H, IH. reflexivity.
Qed.

Lemma option_map_idem (f : string -> string) (x : option string) :
  (forall s, f (f s) = f s) -> option_map f (option_map f x) = option_map f x.
Proof. intros H. destruct x; simpl; [rewrite H|]; reflexivity. Qed.

Lemma blank_to_na_idem (x : option string) :
  blank_to_na (blank_to_na x) = blank_to_na x.
Proof.
  destruct x as [s|]; simpl; [|reflexivity].
  destruct (String.eqb s "") eqn:E; simpl; [reflexivity|].
  rewrite E. reflexivity.
Qed.

Lemma cleanup_of_idem nm g x :
  cleanup_of nm = Some g -> g (g x) = g x.
Proof.
  unfold cleanup_of.
  destruct (String.eqb nm "Sex"); [intros [= <-]|].
  { apply option_map_idem. intros s. apply map_chars_idem, lower_char_idem. }
  destruct (String.eqb nm "Ticket"); [intros [= <-]|].
  { apply option_map_idem. intros s. apply map_chars_idem, upper_char_idem. }
  destruct (String.eqb nm "Embarked"); [intros [= <-]|discriminate].
  apply blank_to_na_idem.
Qed.

Lemma cleanup_of_none nm g : cleanup_of nm = Some g -> g None = None.
Proof.
  unfold cleanup_of.
  destruct (String.eqb nm "Sex"); [intros [= <-]; reflexivity|].
  destruct (String.eqb nm "Ticket"); [intros [= <-]; reflexivity|].
  destruct (String.eqb nm "Embarked"); [intros [= <-]; reflexivity|discriminate].
Qed.

Lemma text_map_cell_map f (c : Series) : text_map f c = cell_map (option_map f) c.
Proof. reflexivity. Qed.

Lemma replace_blank_cell_map (c : Series) : replace_blank c = cell_map blank_to_na c.
Proof. reflexivity. Qed.

Lemma named_cleanup_cell_map (c : Series) :
  named_cleanup c =
  match cleanup_of (name c) with
  | Some g => cell_map g c
  | None => c
  end.
Proof.
  unfold named_cleanup, cleanup_of.
  destruct (String.eqb (name c) "Sex"); [reflexivity|].
  destruct (String.eqb (name c) "Ticket"); [reflexivity|].
  destruct (String.eqb (name c) "Embarked"); reflexivity.
Qed.

Lemma cell_map_name g (c : Series) : name (cell_map g c) = name c.
Proof. unfold cell_map. destruct (data c); reflexivity. Qed.

Lemma cell_map_idem g (c : Series) :
  (forall x, g (g x) = g x) -> cell_map g (cell_map g c) = cell_map g c.
Proof.
  intros H. destruct c as [nm [v|v|v]]; unfold cell_map; simpl;
    [reflexivity | |]; rewrite map_map; do 2 f_equal;
    apply map_ext; intros x; apply H.
Qed.

Lemma named_cleanup_idem (c : Series) :
  named_cleanup (named_cleanup c) = named_cleanup c.
Proof.
  rewrite !named_cleanup_cell_map.
  destruct (cleanup_of (name c)) as [g|] eqn:E.
  - rewrite cell_map_name, E. apply cell_map_idem.
    intros x. apply (cleanup_of_idem _ _ _ E).
  - rewrite E. reflexivity.
Qed.

(** ** What the cleaner leaves behind *)

Lemma strip_column_not_object (c : Series) : is_object (strip_column c) = false.
Proof. destruct c as [nm [v|v|v]]; reflexivity. Qed.

Lemma strip_column_fixed (c : Series) : is_object c = false -> strip_column c = c.
Proof. destruct c as [nm [v|v|v]]; [reflexivity | discriminate | reflexivity]. Qed.

Lemma cell_map_object g (c : Series) : is_object (cell_map g c) = is_object c.
Proof. destruct c as [nm [v|v|v]]; reflexivity. Qed.

Lemma named_cleanup_object (c : Series) : is_object (named_cleanup c) = is_object c.
Proof.
  rewrite named_cleanup_cell_map.
  destruct (cleanup_of (name c)); [apply cell_map_object | reflexivity].
Qed.

Lemma named_cleanup_is_numeric (c : Series) : is_numeric (named_cleanup c) = is_numeric c.
Proof.
  rewrite named_cleanup_cell_map.
  destruct (cleanup_of (name c)); [|reflexivity].
  destruct c as [nm [v|v|v]]; reflexivity.
Qed.

Lemma select_rows_object m (c : Series) : is_object (select_rows m c) = is_object c.
Proof. destruct c as [nm [v|v|v]]; reflexivity. Qed.

Lemma fill_numeric_col_object (c : Series) : is_object (fill_numeric_col c) = is_object c.
Proof.
  destruct c as [nm [v|v|v]]; unfold fill_numeric_col; simpl; try reflexivity.
  destruct (isna_any _); [|reflexivity]. destruct (median v); reflexivity.
Qed.

Lemma fill_categorical_col_object (c : Series) :
  is_object (fill_categorical_col c) = is_object c.
Proof.
  destruct c as [nm [v|v|v]]; unfold fill_categorical_col; simpl; try reflexivity;
    destruct (isna_any _); reflexivity.
Qed.

Lemma take_mask_map {A B} (g : A -> B) (m : list bool) (l : list A) :
  map g (take_mask m l) = take_mask m (map g l).
Proof.
  revert l. induction m as [|b m IH]; intros [|x l]; simpl; try reflexivity.
  destruct b; simpl; rewrite IH; reflexivity.
Qed.

Lemma cell_map_select_rows g m (c : Series) :
  cell_map g (select_rows m c) = select_rows m (cell_map g c).
Proof.
  destruct c as [nm [v|v|v]]; unfold cell_map, select_rows; simpl;
    rewrite ?take_mask_map; reflexivity.
Qed.

Lemma named_cleanup_select_rows m (c : Series) :
  named_cleanup (select_rows m c) = select_rows m (named_cleanup c).
Proof.
  rewrite !named_cleanup_cell_map, select_rows_name.
  destruct (cleanup_of (name c)); [apply cell_map_select_rows | reflexivity].
Qed.

Lemma count_true_take_mask (m l : list bool) :
  count_true l = 0 -> count_true (take_mask m l) = 0.
Proof.
  unfold count_true. revert l.
  induction m as [|b m IH]; intros [|x l]; simpl; try reflexivity.
  destruct x; simpl; [discriminate|]. intros H.
  destruct b; simpl; apply IH, H.
Qed.

Lemma missing_select_rows m (c : Series) :
  missing_count c = 0 -> missing_count (select_rows m c) = 0.
Proof.
  destruct c as [nm [v|v|v]]; unfold missing_count, isna, select_rows; simpl;
    rewrite take_mask_map; apply count_true_take_mask.
Qed.

Lemma settled_select_rows m (c : Series) : settled c -> settled (select_rows m c).
Proof.
  intros (Ho & Hm & Hn). split; [|split].
  - rewrite select_rows_object. exact Ho.
  - apply missing_select_rows, Hm.
  - rewrite named_cleanup_select_rows, Hn. reflexivity.
Qed.

Lemma fixed_present (g : option string -> option string) v x :
  map g v = v -> In x (dropna v) -> g (Some x) = Some x.
Proof.
  induction v as [|[a|] v IH]; simpl; intros H Hx; [contradiction | |].
  - injection H as Ha Hv. destruct Hx as [<-|Hx]; auto.
  - injection H as _ Hv. auto.
Qed.

Lemma map_fillna_fixed (g : option string -> option string) v x :
  map g v = v -> g (Some x) = Some x -> map g (fillna x v) = fillna x v.
Proof.
  intros H Hx. induction v as [|[a|] v IH]; simpl in *; [reflexivity | |].
  - injection H as Ha Hv. rewrite Ha, (IH Hv). reflexivity.
  - injection H as _ Hv. rewrite Hx, (IH Hv). reflexivity.
Qed.

Lemma cell_map_numeric g (c : Series) : is_numeric c = true -> cell_map g c = c.
Proof. destruct c as [nm [v|v|v]]; [reflexivity | discriminate | discriminate]. Qed.

Lemma named_cleanup_numeric (c : Series) : is_numeric c = true -> named_cleanup c = c.
Proof.
  intros H. rewrite named_cleanup_cell_map.
  destruct (cleanup_of (name c)); [apply cell_map_numeric, H | reflexivity].
Qed.

Lemma text_present_values nm (v : list (option string)) (k : list (option string) -> coldata) :
  (k = Object \/ k = StringArr) ->
  isna_any (mkSeries nm (k v)) = true ->
  missing_count (mkSeries nm (k v)) = 0
  \/ missing_count (mkSeries nm (k v)) < size (mkSeries nm (k v)) ->
  dropna v <> [].
Proof.
  intros Hk Ha Hf.
  assert (Hm : missing_count (mkSeries nm (k v)) <> 0).
  { rewrite missing_0_iff, Ha. discriminate. }
  destruct Hf as [Hf|Hf]; [contradiction|].
  pose proof (dropna_length v) as L. intros Hd. rewrite Hd in L. simpl in L.
  destruct Hk as [-> | ->]; unfold missing_count, size, isna in Hf; simpl in Hf;
    rewrite length_map in Hf; lia.
Qed.

Lemma cell_map_fill_fixed g (c : Series) :
  g None = None ->
  is_numeric c = false ->
  cell_map g c = c ->
  missing_count c = 0 \/ missing_count c < size c ->
  cell_map g (fill_categorical_col c) = fill_categorical_col c.
Proof.
  intros Hg Hn Hc Hf. destruct c as [nm [v|v|v]]; [discriminate | |].
  - unfold fill_categorical_col. cbn [data name].
    destruct (isna_any _) eqn:Ea; [|exact Hc].
    unfold cell_map in *. cbn [data name] in *. do 2 f_equal.
    injection Hc as Hv. apply map_fillna_fixed; [exact Hv|].
    apply (fixed_present g v); [exact Hv|].
    apply fill_value_present.
    apply (text_present_values nm v Object); auto.
  - unfold fill_categorical_col. cbn [data name].
    destruct (isna_any _) eqn:Ea; [|exact Hc].
    unfold cell_map in *. cbn [data name] in *. do 2 f_equal.
    injection Hc as Hv. apply map_fillna_fixed; [exact Hv|].
    apply (fixed_present g v); [exact Hv|].
    apply fill_value_present.
    apply (text_present_values nm v StringArr); auto.
Qed.

Lemma named_cleanup_fill_fixed (c : Series) :
  named_cleanup c = c ->
  missing_count c = 0 \/ missing_count c < size c ->
  named_cleanup (fill_categorical_col (fill_numeric_col c))
  = fill_categorical_col (fill_numeric_col c).
Proof.
  intros Hc Hf. destruct (is_numeric c) eqn:En.
  - apply named_cleanup_numeric.
    rewrite fill_categorical_col_numeric;
      rewrite fill_numeric_col_numeric; exact En.
  - rewrite (fill_numeric_col_text c En).
    rewrite named_cleanup_cell_map in *. rewrite fill_categorical_col_name.
    destruct (cleanup_of (name c)) as [g|] eqn:E; [|reflexivity].
    apply cell_map_fill_fixed; auto. apply (cleanup_of_none _ _ E).
Qed.

Lemma fill_categorical_col_is_numeric (c : Series) :
  is_numeric (fill_categorical_col c) = is_numeric c.
Proof.
  destruct c as [nm [v|v|v]]; unfold fill_categorical_col; simpl; try reflexivity;
    destruct (isna_any _); reflexivity.
Qed.

Lemma clean_text_settled (df out : DataFrame) :
  clean df = Ok out ->
  (forall c, In c out -> is_object c = false /\ named_cleanup c = c)
  /\ text_named out = true.
Proof.
  unfold clean, normalize. intros H.
  destruct (normalize_named (strip_text_cols (drop_duplicates df))) as [d|] eqn:E;
    simpl in H; [|discriminate].
  injection H as <-. apply normalize_named_inv in E as [Ht ->].
  set (p := strip_text_cols (drop_duplicates df)) in *.
  assert (Hp : forall y0, In y0 p -> is_object y0 = false).
  { intros y0 Hy. unfold p, strip_text_cols in Hy.
    apply in_map_iff in Hy as (y1 & <- & _). apply strip_column_not_object. }
  assert (G : forall c, In c (handle_missing (map named_cleanup p)) ->
              exists y0, In y0 p /\
                c = fill_categorical_col (fill_numeric_col (named_cleanup y0)) /\
                In (named_cleanup y0) (drop_high_missing (map named_cleanup p))).
  { intros c Hc. unfold handle_missing, fill_categorical, fill_numeric in Hc.
    rewrite map_map in Hc. apply in_map_iff in Hc as (y & <- & Hy).
    pose proof Hy as Hy'. apply drop_high_missing_in in Hy' as [Hy' _].
    apply in_map_iff in Hy' as (y0 & <- & Hy0). exists y0. auto. }
  split.
  - intros c Hc.
    destruct (G c Hc) as (y0 & Hy0 & -> & Hk). split.
    + rewrite fill_categorical_col_object, fill_numeric_col_object,
        named_cleanup_object. apply Hp, Hy0.
    + apply named_cleanup_fill_fixed;
        [apply named_cleanup_idem | apply (kept_column_fillable _ _ Hk)].
  - apply text_named_iff. intros c Hc Hn.
    destruct (G c Hc) as (y0 & Hy0 & -> & _).
    rewrite fill_categorical_col_name, fill_numeric_col_name,
      named_cleanup_name in Hn.
    rewrite text_named_iff in Ht. specialize (Ht y0 Hy0 Hn).
    rewrite fill_categorical_col_is_numeric, fill_numeric_col_numeric,
      named_cleanup_is_numeric. exact Ht.
Qed.

Lemma clean_settled (df out : DataFrame) :
  clean df = Ok out ->
  (forall c, In c out -> missing_count c = 0) ->
  (forall c, In c out -> settled c) /\ text_named out = true.
Proof.
  intros H Hm. apply clean_text_settled in H as [Hs Ht].
  split; [|exact Ht]. intros c Hc. destruct (Hs c Hc) as [Ho Hn].
  split; [exact Ho|]. split; [apply Hm, Hc | exact Hn].
Qed.

(** C4 (as the code has it): applied again to the cleaned table as it stands in
    memory, with no missing value left in it, the cleaner drops no column
    and changes no value; it returns that table with the rows that have
    become duplicates of an earlier row removed. *)
Theorem clean_twice_only_deduplicates (df c : DataFrame) :
  clean df = Ok c ->
  (forall x, In x c -> missing_count x = 0) ->
  clean c = Ok (drop_duplicates c)
  /\ map name (drop_duplicates c) = map name c.
Proof.
  intros H Hm. apply (clean_settled df c H) in Hm as [Hs Ht]. split.
  - unfold clean. rewrite (normalize_ok c Ht). simpl.
    assert (Hd : forall x, In x (drop_duplicates c) -> settled x).
    { intros x Hx. unfold drop_duplicates in Hx.
      apply in_map_iff in Hx as (x0 & <- & Hx0).
      apply settled_select_rows, Hs, Hx0. }
    unfold strip_text_cols.
    rewrite (map_id_on strip_column)
      by (intros x Hx; apply strip_column_fixed, (Hd x Hx)).
    rewrite (map_id_on named_cleanup) by (intros x Hx; apply (Hd x Hx)).
    rewrite handle_missing_complete by (intros x Hx; apply (Hd x Hx)).
    reflexivity.
  - unfold drop_duplicates. rewrite map_map. reflexivity.
Qed.

(** ** Duplicate rows *)

Lemma option_eqb_eq {A} (eqb : A -> A -> bool) (x y : option A) :
  (forall a b, eqb a b = true <-> a = b) ->
  option_eqb eqb x y = true <-> x = y.
Proof.
  intros H. destruct x as [a|], y as [b|]; simpl.
  - rewrite H. split; congruence.
  - split; discriminate.
  - split; discriminate.
  - tauto.
Qed.

Lemma cell_eqb_eq (a b : cell) : cell_eqb a b = true <-> a = b.
Proof.
  destruct a as [x|x], b as [y|y]; simpl.
  - rewrite (option_eqb_eq num_eqb x y num_eqb_eq). split; congruence.
  - split; discriminate.
  - split; discriminate.
  - rewrite (option_eqb_eq String.eqb x y String.eqb_eq). split; congruence.
Qed.

Lemma row_eqb_eq (r s : list cell) : row_eqb r s = true <-> r = s.
Proof.
  revert s. induction r as [|a r IH]; intros [|b s]; simpl.
  - tauto.
  - split; discriminate.
  - split; discriminate.
  - rewrite andb_true_iff, cell_eqb_eq, IH. split.
    + intros [-> ->]. reflexivity.
    + intros [= -> ->]. auto.
Qed.

Lemma seen_in_iff (seen : list (list cell)) (r : list cell) :
  seen_in seen r = true <-> In r seen.
Proof.
  unfold seen_in. rewrite existsb_exists. split.
  - intros (x & Hx & E). apply row_eqb_eq in E. subst. exact Hx.
  - intros H. exists r. split; [exact H | apply row_eqb_eq; reflexivity].
Qed.

Lemma seen_in_ext (s1 s2 : list (list cell)) (r : list cell) :
  (forall x, In x s1 <-> In x s2) -> seen_in s1 r = seen_in s2 r.
Proof.
  intros H. apply eq_true_iff_eq. rewrite !seen_in_iff. apply H.
Qed.

Lemma duplicated_from_ext (s1 s2 rs : list (list cell)) :
  (forall x, In x s1 <-> In x s2) ->
  duplicated_from s1 rs = duplicated_from s2 rs.
Proof.
  revert s1 s2. induction rs as [|r rs IH]; intros s1 s2 H; simpl; [reflexivity|].
  fold (seen_in s1 r). fold (seen_in s2 r).
  rewrite (seen_in_ext s1 s2 r H). f_equal. apply IH.
  intros x. simpl. rewrite H. reflexivity.
Qed.

Lemma row_eqb_sym (r s : list cell) : row_eqb r s = row_eqb s r.
Proof. apply eq_true_iff_eq. rewrite !row_eqb_eq. split; congruence. Qed.

Lemma filter_seen_cons (r : list cell) (seen l : list (list cell)) :
  filter (fun x => negb (seen_in (r :: seen) x)) l
  = filter (fun x => negb (seen_in seen x))
      (filter (fun y => negb (row_eqb r y)) l).
Proof.
  induction l as [|y l IHl]; cbn [filter]; [reflexivity|].
  assert (E : seen_in (r :: seen) y = row_eqb r y || seen_in seen y).
  { unfold seen_in. simpl. rewrite (row_eqb_sym y r). reflexivity. }
  rewrite E. destruct (row_eqb r y); cbn [orb negb filter].
  - exact IHl.
  - destruct (seen_in seen y); cbn [negb]; rewrite IHl; reflexivity.
Qed.

(** The rows that are kept are the distinct rows, each at its first
    occurrence. *)
Lemma kept_rows_unique (seen rs : list (list cell)) :
  take_mask (map negb (duplicated_from seen rs)) rs
  = filter (fun x => negb (seen_in seen x)) (unique row_eqb rs).
Proof.
  revert seen. induction rs as [|r rs IH]; intros seen; [reflexivity|].
  cbn [duplicated_from map take_mask unique filter].
  fold (seen_in seen r). rewrite IH, filter_seen_cons.
  destruct (seen_in seen r); reflexivity.
Qed.

Lemma unique_rows_in (x : list cell) (l : list (list cell)) :
  In x (unique row_eqb l) <-> In x l.
Proof.
  induction l as [|y l IH]; simpl; [tauto|].
  rewrite filter_In, IH, negb_true_iff, <- not_true_iff_false, row_eqb_eq.
  split.
  - intros [E | [H _]]; auto.
  - intros [E | H]; [auto|].
    destruct (row_eqb y x) eqn:D.
    + left. apply row_eqb_eq, D.
    + right. split; [exact H|]. intros E. apply row_eqb_eq in E. congruence.
Qed.

Lemma unique_rows_nodup (l : list (list cell)) : NoDup (unique row_eqb l).
Proof.
  induction l as [|y l IH]; simpl; [constructor|]. constructor.
  - rewrite filter_In, negb_true_iff, <- not_true_iff_false, row_eqb_eq.
    intros [_ H]. apply H. reflexivity.
  - apply NoDup_filter, IH.
Qed.

Lemma kept_rows_all (rs : list (list cell)) :
  take_mask (map negb (duplicated_from [] rs)) rs = unique row_eqb rs.
Proof.
  rewrite kept_rows_unique. apply filter_all. reflexivity.
Qed.

Lemma duplicated_from_length (seen rs : list (list cell)) :
  List.length (duplicated_from seen rs) = List.length rs.
Proof.
  revert seen. induction rs as [|r rs IH]; intros seen; simpl; [reflexivity|].
  rewrite IH. reflexivity.
Qed.

(** Without repeated rows nothing is flagged. *)
Lemma duplicated_from_nodup (seen rs : list (list cell)) :
  NoDup rs -> (forall r, In r rs -> ~ In r seen) ->
  duplicated_from seen rs = repeat false (List.length rs).
Proof.
  revert seen. induction rs as [|r rs IH]; intros seen Hn Hs; simpl; [reflexivity|].
  inversion Hn as [|? ? Hr Hn']; subst.
  fold (seen_in seen r).
  assert (E : seen_in seen r = false).
  { apply not_true_iff_false. rewrite seen_in_iff. apply Hs. left. reflexivity. }
  rewrite E. f_equal. apply IH; [exact Hn'|].
  intros x Hx [<-|Hin]; [contradiction|]. apply (Hs x); [right; exact Hx | exact Hin].
Qed.

Lemma rows_as_rows_of (df : DataFrame) :
  rows df = rows_of (map cells df) (nrows df).
Proof.
  unfold rows, rows_of, row_at. apply map_ext. intros i.
  rewrite map_map. reflexivity.
Qed.

Lemma rows_length (df : DataFrame) : List.length (rows df) = nrows df.
Proof. unfold rows. rewrite length_map, length_seq. reflexivity. Qed.

Lemma cells_select_rows m (c : Series) : cells (select_rows m c) = take_mask m (cells c).
Proof.
  destruct c as [nm [v|v|v]]; unfold cells, select_rows; simpl;
    apply take_mask_map.
Qed.

Lemma size_cells (c : Series) : size c = List.length (cells c).
Proof.
  destruct c as [nm [v|v|v]]; unfold size, isna, cells; simpl;
    rewrite !length_map; reflexivity.
Qed.

Lemma take_mask_count {A} (m : list bool) (l : list A) :
  List.length m = List.length l -> List.length (take_mask m l) = count_true m.
Proof.
  unfold count_true. revert l.
  induction m as [|b m IH]; intros [|x l] H; simpl in *; try discriminate;
    [reflexivity|].
  injection H as H. destruct b; simpl; rewrite (IH l H); reflexivity.
Qed.

Lemma take_mask_all {A} (l : list A) :
  take_mask (repeat true (List.length l)) l = l.
Proof. induction l as [|x l IH]; simpl; [reflexivity | rewrite IH; reflexivity]. Qed.

Lemma nth_tl {A} (i : nat) (l : list A) (d : A) : nth (S i) l d = nth i (tl l) d.
Proof. destruct l; [destruct i|]; reflexivity. Qed.

Lemma rows_of_S (cols : list (list cell)) (n : nat) :
  rows_of cols (S n)
  = map (fun c => nth 0 c (CStr None)) cols :: rows_of (map (@tl cell) cols) n.
Proof.
  unfold rows_of. cbn [seq map]. f_equal.
  rewrite <- seq_shift, map_map. apply map_ext. intros i.
  rewrite map_map. apply map_ext. intros c. apply nth_tl.
Qed.

(** Masking every column and then reading the rows gives the masked rows. *)
Lemma rows_of_mask (m : list bool) (cols : list (list cell)) :
  (forall c, In c cols -> List.length c = List.length m) ->
  rows_of (map (take_mask m) cols) (count_true m)
  = take_mask m (rows_of cols (List.length m)).
Proof.
  revert cols. induction m as [|b m IH]; intros cols H.
  - reflexivity.
  - assert (Ht : forall c, In c (map (@tl cell) cols) -> List.length c = List.length m).
    { intros c Hc. apply in_map_iff in Hc as (c0 & <- & Hc0).
      specialize (H c0 Hc0). destruct c0; simpl in *; [discriminate | lia]. }
    cbn [List.length]. rewrite (rows_of_S cols).
    destruct b.
    + change (count_true (true :: m)) with (S (count_true m)).
      rewrite rows_of_S. cbn [take_mask]. f_equal.
      * rewrite map_map. apply map_ext_in. intros c Hc.
        specialize (H c Hc). destruct c; [discriminate | reflexivity].
      * rewrite <- (IH _ Ht). f_equal. rewrite !map_map.
        apply map_ext_in. intros c Hc.
        specialize (H c Hc). destruct c; [discriminate | reflexivity].
    + change (count_true (false :: m)) with (count_true m).
      cbn [take_mask]. rewrite <- (IH _ Ht). f_equal. rewrite map_map.
      apply map_ext_in. intros c Hc.
      specialize (H c Hc). destruct c; [discriminate | reflexivity].
Qed.

Lemma rectangular_iff (df : DataFrame) :
  rectangular df = true <-> forall c, In c df -> size c = nrows df.
Proof.
  unfold rectangular. rewrite forallb_forall.
  split; intros H c Hc; apply Nat.eqb_eq, H, Hc.
Qed.

Lemma duplicated_length (df : DataFrame) :
  List.length (duplicated df) = nrows df.
Proof. unfold duplicated. rewrite duplicated_from_length. apply rows_length. Qed.

Lemma drop_duplicates_size (df : DataFrame) (c : Series) :
  rectangular df = true -> In c df ->
  size (select_rows (map negb (duplicated df)) c)
  = count_true (map negb (duplicated df)).
Proof.
  intros Hr Hc. rewrite size_cells, cells_select_rows. apply take_mask_count.
  rewrite length_map, duplicated_length, <- size_cells.
  symmetry. apply rectangular_iff; assumption.
Qed.

Lemma drop_duplicates_nrows (df : DataFrame) :
  rectangular df = true -> df <> [] ->
  nrows (drop_duplicates df) = count_true (map negb (duplicated df)).
Proof.
  intros Hr Hn. destruct df as [|c df]; [congruence|].
  unfold drop_duplicates. cbn [map nrows].
  apply drop_duplicates_size; [exact Hr | left; reflexivity].
Qed.

Lemma drop_duplicates_rectangular (df : DataFrame) :
  rectangular df = true -> rectangular (drop_duplicates df) = true.
Proof.
  intros Hr. destruct df as [|c0 df]; [reflexivity|].
  apply rectangular_iff. intros c Hc.
  rewrite drop_duplicates_nrows by (auto; discriminate).
  unfold drop_duplicates in Hc. apply in_map_iff in Hc as (c1 & <- & Hc1).
  apply drop_duplicates_size; assumption.
Qed.

Lemma drop_duplicates_rows_unique (df : DataFrame) :
  rectangular df = true ->
  rows (drop_duplicates df) = unique row_eqb (rows df).
Proof.
  intros Hr. destruct df as [|c0 df]; [reflexivity|].
  set (d := c0 :: df) in *.
  rewrite rows_as_rows_of, drop_duplicates_nrows by (auto; discriminate).
  unfold drop_duplicates. rewrite map_map.
  rewrite (map_ext _ (fun c => take_mask (map negb (duplicated d)) (cells c)))
    by (intros c; apply cells_select_rows).
  rewrite <- (map_map cells (take_mask (map negb (duplicated d)))).
  rewrite rows_of_mask.
  - rewrite length_map, duplicated_length, <- rows_as_rows_of.
    apply kept_rows_all.
  - intros c Hc. apply in_map_iff in Hc as (c1 & <- & Hc1).
    rewrite length_map, duplicated_length, <- size_cells.
    apply rectangular_iff; assumption.
Qed.

Lemma drop_duplicates_fixed (df : DataFrame) :
  rectangular df = true -> NoDup (rows df) -> drop_duplicates df = df.
Proof.
  intros Hr Hn. unfold drop_duplicates, duplicated.
  rewrite (duplicated_from_nodup [] (rows df) Hn) by (intros r _ []).
  rewrite rows_length. apply map_id_on. intros c Hc.
  assert (E : map negb (repeat false (nrows df)) = repeat true (nrows df)).
  { induction (nrows df); simpl; [reflexivity | f_equal; assumption]. }
  rewrite E.
  rewrite <- (proj1 (rectangular_iff df) Hr c Hc).
  destruct c as [nm [v|v|v]]; unfold select_rows, size, isna; cbn [data name];
    rewrite length_map, take_mask_all; reflexivity.
Qed.

(** X1: on a frame with columns of equal length, the rows left by
    [drop_duplicates] are the distinct rows of the input, each at its first
    occurrence and in the input order; no row occurs twice, and the columns
    still have equal length. *)
Theorem drop_duplicates_keeps_first (df : DataFrame) :
  rectangular df = true ->
  rows (drop_duplicates df) = unique row_eqb (rows df)
  /\ NoDup (rows (drop_duplicates df))
  /\ rectangular (drop_duplicates df) = true.
Proof.
  intros Hr. split; [apply drop_duplicates_rows_unique, Hr|]. split.
  - rewrite drop_duplicates_rows_unique by exact Hr. apply unique_rows_nodup.
  - apply drop_duplicates_rectangular, Hr.
Qed.

(** X2: removing duplicates a second time changes nothing. *)
Theorem drop_duplicates_idempotent (df : DataFrame) :
  rectangular df = true ->
  drop_duplicates (drop_duplicates df) = drop_duplicates df.
Proof.
  intros Hr. apply drop_duplicates_fixed.
  - apply drop_duplicates_rectangular, Hr.
  - rewrite drop_duplicates_rows_unique by exact Hr. apply unique_rows_nodup.
Qed.

(** ** Shape of the cleaned table *)

Lemma size_fillna_numeric (c : Series) : size (fill_numeric_col c) = size c.
Proof.
  destruct c as [nm [v|v|v]]; unfold fill_numeric_col; cbn [data name];
    try reflexivity.
  destruct (isna_any _); [|reflexivity]. destruct (median v); [|reflexivity].
  unfold size, isna, fillna. cbn [data]. rewrite !length_map. reflexivity.
Qed.

Lemma size_fillna_categorical (c : Series) : size (fill_categorical_col c) = size c.
Proof.
  destruct c as [nm [v|v|v]]; unfold fill_categorical_col; cbn [data name];
    try reflexivity; destruct (isna_any _); try reflexivity;
    unfold size, isna, fillna; cbn [data]; rewrite !length_map; reflexivity.
Qed.

Lemma uniform_rectangular (df : DataFrame) (k : nat) :
  (forall c, In c df -> size c = k) -> rectangular df = true.
Proof.
  intros H. apply rectangular_iff. intros c Hc. rewrite (H c Hc).
  destruct df as [|c0 df]; [contradiction|]. symmetry. apply H. left. reflexivity.
Qed.

Lemma clean_inv (df out : DataFrame) :
  clean df = Ok out ->
  out = handle_missing (map named_cleanup (strip_text_cols (drop_duplicates df))).
Proof.
  unfold clean, normalize. intros H.
  destruct (normalize_named (strip_text_cols (drop_duplicates df))) as [d|] eqn:E;
    simpl in H; [|discriminate].
  injection H as <-. apply normalize_named_inv in E as [_ ->]. reflexivity.
Qed.

Lemma handle_missing_column (d : DataFrame) (c' : Series) :
  In c' (handle_missing d) ->
  exists c, In c d /\ In c (drop_high_missing d)
            /\ c' = fill_categorical_col (fill_numeric_col c).
Proof.
  unfold handle_missing, fill_categorical, fill_numeric. rewrite map_map.
  intros H. apply in_map_iff in H as (c & <- & Hc).
  exists c. split; [|auto]. apply drop_high_missing_in in Hc. tauto.
Qed.

Lemma clean_column (df out : DataFrame) (c' : Series) :
  clean df = Ok out -> In c' out ->
  exists c, In c df
    /\ c' = fill_categorical_col (fill_numeric_col (named_cleanup (strip_column
               (select_rows (map negb (duplicated df)) c)))).
Proof.
  intros H Hc. rewrite (clean_inv _ _ H) in Hc.
  apply handle_missing_column in Hc as (c1 & Hc1 & _ & ->).
  unfold strip_text_cols, drop_duplicates in Hc1. rewrite !map_map in Hc1.
  apply in_map_iff in Hc1 as (c & <- & Hc0). exists c. auto.
Qed.

Lemma count_kept_rows (df : DataFrame) :
  count_true (map negb (duplicated df)) = List.length (unique row_eqb (rows df)).
Proof.
  rewrite <- kept_rows_all, take_mask_count; [reflexivity|].
  rewrite length_map. apply duplicated_from_length.
Qed.

Lemma clean_sizes (df out : DataFrame) (c : Series) :
  rectangular df = true -> clean df = Ok out -> In c out ->
  size c = List.length (unique row_eqb (rows df)).
Proof.
  intros Hr H Hc. destruct (clean_column _ _ _ H Hc) as (c0 & Hc0 & ->).
  rewrite size_fillna_categorical, size_fillna_numeric, size_named_cleanup,
    size_strip_column, (drop_duplicates_size df c0 Hr Hc0).
  apply count_kept_rows.
Qed.

(** X3: the cleaned table has one row per distinct row of the input, in
    every column; its columns have equal length. *)
Theorem clean_row_count (df out : DataFrame) :
  rectangular df = true ->
  clean df = Ok out ->
  (forall c, In c out -> size c = List.length (unique row_eqb (rows df)))
  /\ rectangular out = true.
Proof.
  intros Hr H. split.
  - intros c. apply (clean_sizes df out c Hr H).
  - apply (uniform_rectangular out (List.length (unique row_eqb (rows df)))).
    intros c. apply (clean_sizes df out c Hr H).
Qed.

(** ** Trimming *)

Lemma lstrip_head (s : string) : head_not_space (PyStr.lstrip s).
Proof.
  induction s as [|c s IH]; simpl; [exact I|].
  destruct (PyStr.is_space c) eqn:E; [exact IH | exact E].
Qed.

Lemma lstrip_fixed (s : string) : head_not_space s -> PyStr.lstrip s = s.
Proof. destruct s as [|c s]; simpl; [reflexivity|]. intros ->. reflexivity. Qed.

Lemma rstrip_head (s : string) : head_not_space s -> head_not_space (PyStr.rstrip s).
Proof.
  destruct s as [|c s]; simpl; [auto|]. intros E.
  destruct (PyStr.rstrip s); [rewrite E|]; exact E.
Qed.

Lemma rstrip_idem (s : string) : PyStr.rstrip (PyStr.rstrip s) = PyStr.rstrip s.
Proof.
  induction s as [|c s IH]; simpl; [reflexivity|].
  destruct (PyStr.rstrip s) as [|d r] eqn:E.
  - destruct (PyStr.is_space c) eqn:Ec; simpl; [reflexivity|].
    rewrite Ec. reflexivity.
  - cbn [PyStr.rstrip]. cbn [PyStr.rstrip] in IH. rewrite IH. reflexivity.
Qed.

Lemma lstrip_split (s : string) :
  exists pre, s = (pre ++ PyStr.lstrip s)%string /\ all_space pre = true.
Proof.
  induction s as [|c s (pre & E & H)].
  - exists EmptyString. split; reflexivity.
  - cbn [PyStr.lstrip]. destruct (PyStr.is_space c) eqn:Ec.
    + exists (String c pre). split.
      * cbn [String.append]. f_equal. exact E.
      * cbn [all_space]. rewrite Ec, H. reflexivity.
    + exists EmptyString. split; reflexivity.
Qed.

Lemma rstrip_split (s : string) :
  exists post, s = (PyStr.rstrip s ++ post)%string /\ all_space post = true.
Proof.
  induction s as [|c s (post & E & H)].
  - exists EmptyString. split; reflexivity.
  - cbn [PyStr.rstrip]. destruct (PyStr.rstrip s) as [|d r] eqn:Er.
    + cbn [String.append] in E. destruct (PyStr.is_space c) eqn:Ec.
      * exists (String c post). split.
        -- cbn [String.append]. f_equal. exact E.
        -- cbn [all_space]. rewrite Ec, H. reflexivity.
      * exists post. split; [|exact H].
        cbn [String.append]. f_equal. exact E.
    + exists post. split; [|exact H].
      cbn [String.append]. f_equal. exact E.
Qed.

Lemma strip_trimmed (s : string) :
  PyStr.lstrip (PyStr.strip s) = PyStr.strip s
  /\ PyStr.rstrip (PyStr.strip s) = PyStr.strip s.
Proof.
  unfold PyStr.strip. split.
  - apply lstrip_fixed, rstrip_head, lstrip_head.
  - apply rstrip_idem.
Qed.

Lemma strip_split (s : string) :
  exists pre post,
    s = (pre ++ PyStr.strip s ++ post)%string
    /\ all_space pre = true /\ all_space post = true.
Proof.
  destruct (lstrip_split s) as (pre & E1 & H1).
  destruct (rstrip_split (PyStr.lstrip s)) as (post & E2 & H2).
  exists pre, post. unfold PyStr.strip. rewrite <- E2. auto.
Qed.

(** X5: trimming an object column leaves text values with no whitespace at
    either end, and it removes nothing but whitespace: every value is its
    trimmed form between two runs of whitespace. *)
Theorem strip_column_trims (c : Series) :
  is_object c = true ->
  (forall s, In (Some s) (text_values (strip_column c)) ->
             PyStr.lstrip s = s /\ PyStr.rstrip s = s)
  /\ Forall2 (fun x y =>
                match x, y with
                | Some a, Some b =>
                    exists pre post,
                      a = (pre ++ b ++ post)%string
                      /\ all_space pre = true /\ all_space post = true
                | None, None => True
                | _, _ => False
                end)
             (text_values c) (text_values (strip_column c)).
Proof.
  destruct c as [nm [v|v|v]]; try discriminate. intros _.
  unfold strip_column, text_values. cbn [data]. split.
  - intros s Hs. apply in_map_iff in Hs as ([a|] & E & _); [|discriminate].
    injection E as <-. apply strip_trimmed.
  - induction v as [|[a|] v IH]; simpl; constructor; auto.
    apply strip_split.
Qed.

(** ** Cells under imputation *)

Lemma present_cells_refl (l : list cell) :
  Forall2 (fun a b => cell_missing a = false -> b = a) l l.
Proof. induction l; constructor; auto. Qed.

Lemma present_cells_fillna {A} (k : option A -> cell) (x : A) (v : list (option A)) :
  (forall o, cell_missing (k o) = is_none o) ->
  Forall2 (fun a b => cell_missing a = false -> b = a)
          (map k v) (map k (fillna x v)).
Proof.
  intros Hk. induction v as [|[a|] v IH]; simpl; constructor; auto.
  rewrite Hk. discriminate.
Qed.

Lemma fill_numeric_col_present (c : Series) :
  Forall2 (fun a b => cell_missing a = false -> b = a)
          (cells c) (cells (fill_numeric_col c)).
Proof.
  destruct c as [nm [v|v|v]]; unfold fill_numeric_col; cbn [data name];
    try apply present_cells_refl.
  destruct (isna_any _); [|apply present_cells_refl].
  destruct (median v); [|apply present_cells_refl].
  unfold cells. cbn [data]. apply present_cells_fillna. reflexivity.
Qed.

Lemma fill_categorical_col_present (c : Series) :
  Forall2 (fun a b => cell_missing a = false -> b = a)
          (cells c) (cells (fill_categorical_col c)).
Proof.
  destruct c as [nm [v|v|v]]; unfold fill_categorical_col; cbn [data name];
    try apply present_cells_refl;
    destruct (isna_any _); try apply present_cells_refl;
    unfold cells; cbn [data]; apply present_cells_fillna; reflexivity.
Qed.

Lemma Forall2_present_trans (l1 l2 l3 : list cell) :
  Forall2 (fun a b => cell_missing a = false -> b = a) l1 l2 ->
  Forall2 (fun a b => cell_missing a = false -> b = a) l2 l3 ->
  Forall2 (fun a b => cell_missing a = false -> b = a) l1 l3.
Proof.
  intros H. revert l3. induction H as [|a b l1 l2 Hab _ IH]; intros l3 H3.
  - inversion H3. constructor.
  - inversion H3 as [|? c ? l3' Hbc H3']; subst. constructor; [|apply IH, H3'].
    intros Ha. specialize (Hab Ha). subst b. apply Hbc, Ha.
Qed.

(** X6: missing-value handling only fills holes: every column of its result
    is a column of the input under the same name, with the same length, and
    with every present cell unchanged. *)
Theorem imputation_keeps_present_cells (d : DataFrame) (c' : Series) :
  In c' (handle_missing d) ->
  exists c, In c d /\ name c' = name c /\ size c' = size c
            /\ Forall2 (fun a b => cell_missing a = false -> b = a)
                       (cells c) (cells c').
Proof.
  intros H. apply handle_missing_column in H as (c & Hc & _ & ->).
  exists c. split; [exact Hc|]. split; [|split].
  - rewrite fill_categorical_col_name, fill_numeric_col_name. reflexivity.
  - rewrite size_fillna_categorical, size_fillna_numeric. reflexivity.
  - eapply Forall2_present_trans;
      [apply fill_numeric_col_present | apply fill_categorical_col_present].
Qed.

(** ** The named columns of the cleaned table *)

Lemma map_fixed_in {A} (g : A -> A) (v : list A) (x : A) :
  map g v = v -> In x v -> g x = x.
Proof.
  induction v as [|a v IH]; simpl; intros H Hx; [contradiction|].
  injection H as Ha Hv. destruct Hx as [<-|Hx]; auto.
Qed.

Lemma cell_map_fixed_values g (c : Series) x :
  cell_map g c = c -> In x (text_values c) -> g x = x.
Proof.
  destruct c as [nm [v|v|v]]; unfold cell_map, text_values; cbn [data name];
    intros H Hx; [contradiction | |]; injection H as H;
    apply (map_fixed_in g v x H Hx).
Qed.

(** X7: in the cleaned table the values of Sex are lowercase, the values of
    Ticket are uppercase and Embarked holds no empty string, imputed values
    included. *)
Theorem cleaned_named_columns (df out : DataFrame) (c : Series) :
  clean df = Ok out ->
  In c out ->
  (name c = "Sex" ->
   forall s, In (Some s) (text_values c) -> PyStr.lower s = s)
  /\ (name c = "Ticket" ->
      forall s, In (Some s) (text_values c) -> PyStr.upper s = s)
  /\ (name c = "Embarked" -> ~ In (Some "") (text_values c)).
Proof.
  intros H Hc. apply clean_text_settled in H as [Hs _].
  destruct (Hs c Hc) as (_ & Hn). unfold named_cleanup in Hn.
  split; [|split]; intros E; rewrite E in Hn; cbn in Hn.
  - intros s Hin.
    pose proof (cell_map_fixed_values _ _ _ Hn Hin) as K.
    simpl in K. congruence.
  - intros s Hin.
    pose proof (cell_map_fixed_values _ _ _ Hn Hin) as K.
    simpl in K. congruence.
  - intros Hin.
    pose proof (cell_map_fixed_values _ _ _ Hn Hin) as K.
    discriminate.
Qed.

(** ** Column names *)

Lemma filter_as_mask {A} (f : A -> bool) (l : list A) :
  filter f l = take_mask (map f l) l.
Proof.
  induction l as [|a l IH]; simpl; [reflexivity|].
  rewrite IH. reflexivity.
Qed.

(** X8: cleaning neither renames, reorders nor adds columns: the column
    names of the output are those of the input with some left out. *)
Theorem clean_column_names (df out : DataFrame) :
  clean df = Ok out ->
  exists keep : list bool,
    List.length keep = List.length df
    /\ map name out = take_mask keep (map name df).
Proof.
  intros H. rewrite (clean_inv _ _ H).
  set (d := map named_cleanup (strip_text_cols (drop_duplicates df))).
  exists (map (fun c => negb (above_threshold c)) d). split.
  - unfold d, strip_text_cols, drop_duplicates. rewrite !length_map. reflexivity.
  - unfold handle_missing, fill_categorical, fill_numeric, drop_high_missing.
    rewrite !map_map.
    rewrite (map_ext _ name)
      by (intros c; rewrite fill_categorical_col_name, fill_numeric_col_name;
          reflexivity).
    rewrite filter_as_mask, take_mask_map. f_equal.
    unfold d, strip_text_cols, drop_duplicates. rewrite !map_map.
    apply map_ext. intros c.
    rewrite named_cleanup_name, strip_column_name. reflexivity.
Qed.

(** ** Sorted output *)

Section SortOrder.

Context {A : Type} (leb : A -> A -> bool) (P : A -> Prop).

Hypothesis leb_trans : forall x y z, P x -> P y -> P z ->
  leb x y = true -> leb y z = true -> leb x z = true.

Hypothesis leb_false : forall x y, P x -> P y -> leb x y = false -> leb y x = true.

Lemma insert_sorted_perm (x : A) (l : list A) :
  Permutation (insert_sorted leb x l) (x :: l).
Proof.
  induction l as [|y l IH]; simpl; [apply Permutation_refl|].
  destruct (leb x y); [apply Permutation_refl|].
  apply perm_trans with (y :: x :: l); [apply perm_skip, IH | apply perm_swap].
Qed.

Lemma sort_perm (l : list A) : Permutation (sort leb l) l.
Proof.
  induction l as [|x l IH]; simpl; [apply perm_nil|].
  apply perm_trans with (x :: sort leb l);
    [apply insert_sorted_perm | apply perm_skip, IH].
Qed.

Lemma insert_sorted_sorted (x : A) (l : list A) :
  P x -> Forall P l ->
  StronglySorted (fun a b => leb a b = true) l ->
  StronglySorted (fun a b => leb a b = true) (insert_sorted leb x l).
Proof.
  intros Px Pl. induction 1 as [|y l Hs IH Hy]; simpl.
  - constructor; constructor.
  - inversion Pl as [|? ? Py Pl']; subst.
    rewrite Forall_forall in Pl'.
    destruct (leb x y) eqn:E.
    + constructor; [constructor; assumption|].
      constructor; [exact E|].
      apply Forall_forall. intros z Hz. rewrite Forall_forall in Hy.
      apply (leb_trans x y z Px Py (Pl' z Hz) E (Hy z Hz)).
    + constructor; [apply IH; apply Forall_forall; exact Pl'|].
      apply Forall_forall. intros z Hz.
      apply insert_sorted_in in Hz as [->|Hz].
      * apply leb_false; assumption.
      * rewrite Forall_forall in Hy. apply Hy, Hz.
Qed.

Lemma sort_sorted (l : list A) :
  Forall P l -> StronglySorted (fun a b => leb a b = true) (sort leb l).
Proof.
  induction l as [|x l IH]; simpl; intros H; [constructor|].
  inversion H as [|? ? Px Pl]; subst.
  apply insert_sorted_sorted; [exact Px | | apply IH, Pl].
  apply Forall_forall. intros y Hy. apply sort_in in Hy.
  rewrite Forall_forall in Pl. apply Pl, Hy.
Qed.

End SortOrder.

Lemma StronglySorted_impl {A} (R R' : A -> A -> Prop) (l : list A) :
  (forall a b, R a b -> R' a b) -> StronglySorted R l -> StronglySorted R' l.
Proof.
  intros H. induction 1 as [|x l Hs IH Hx]; constructor; [exact IH|].
  eapply Forall_impl; [|exact Hx]. intros b. apply H.
Qed.

Lemma StronglySorted_filter {A} (R : A -> A -> Prop) (f : A -> bool) (l : list A) :
  StronglySorted R l -> StronglySorted R (filter f l).
Proof.
  induction 1 as [|x l Hs IH Hx]; simpl; [constructor|].
  destruct (f x); [|exact IH]. constructor; [exact IH|].
  apply Forall_forall. intros y Hy. apply filter_In in Hy as [Hy _].
  rewrite Forall_forall in Hx. apply Hx, Hy.
Qed.

Lemma missing_counts_sorted (df : DataFrame) :
  StronglySorted (fun a b => snd b <= snd a) (missing_counts df).
Proof.
  unfold missing_counts.
  apply (StronglySorted_impl (fun a b : string * nat => (snd b <=? snd a) = true)).
  - intros a b H. apply Nat.leb_le, H.
  - apply (sort_sorted _ (fun _ => True)).
    + intros x y z _ _ _ H1 H2. apply Nat.leb_le in H1, H2. apply Nat.leb_le. lia.
    + intros x y _ _ H. apply Nat.leb_gt in H. apply Nat.leb_le. lia.
    + apply Forall_forall. auto.
Qed.

Lemma missing_report_in (df : DataFrame) (p : string * nat) :
  In p (missing_report df) <->
  0 < snd p /\ In p (map (fun c => (name c, missing_count c)) df).
Proof.
  unfold missing_report, missing_counts.
  rewrite filter_In, sort_in, Nat.ltb_lt. tauto.
Qed.

(** X13: the missing-value report lists exactly the columns with at least
    one missing value, each with its count, largest count first; printed for
    the output of the cleaner it lists nothing but numeric columns whose
    median could not be computed, and is empty where the mean of two numbers
    always exists. *)
Theorem missing_report_lists_incomplete_columns :
  (forall (df : DataFrame) p,
      In p (missing_report df) <->
      0 < snd p /\ In p (map (fun c => (name c, missing_count c)) df))
  /\ (forall df : DataFrame,
        StronglySorted (fun a b => snd b <= snd a) (missing_report df))
  /\ (forall df out : DataFrame, clean df = Ok out ->
        (forall p, In p (missing_report out) ->
           exists c v, In c out /\ name c = fst p /\ data c = Numeric v
                       /\ dropna v <> [] /\ median v = None)
        /\ (midpoint_total num -> missing_report out = [])).
Proof.
  split; [|split].
  - apply missing_report_in.
  - intros df. apply StronglySorted_filter, missing_counts_sorted.
  - intros df out H. split.
    + intros p Hp. apply missing_report_in in Hp as [Hn Hp].
      apply in_map_iff in Hp as (c & <- & Hc). cbn [fst snd] in *.
      pose proof Hc as Hc'. rewrite (clean_inv _ _ H) in Hc'.
      destruct (handle_missing_outcome _ _ Hc') as [Hz|(v & Ev & Hd & Hm)]; [lia|].
      exists c, v. auto.
    + intros T. unfold missing_report. apply filter_none.
      intros p Hp. unfold missing_counts in Hp. apply sort_in in Hp.
      apply in_map_iff in Hp as (c & <- & Hc). cbn [snd].
      rewrite (clean_inv _ _ H) in Hc.
      rewrite (handle_missing_no_missing _ _ T Hc). reflexivity.
Qed.

(** ** When the cleaner raises *)

Lemma mapM_raise_inv {A B} (f : A -> result B) (l : list A) (e : exn) :
  mapM f l = Raise e -> exists a, In a l /\ f a = Raise e.
Proof.
  induction l as [|a l IH]; simpl; [discriminate|]. intros H.
  destruct (f a) as [b|e'] eqn:Ea; simpl in H.
  - destruct (mapM f l) as [bs|e'] eqn:El; simpl in H; [discriminate|].
    injection H as ->. destruct (IH eq_refl) as (a' & Ha & Fa). exists a'. auto.
  - injection H as ->. exists a. auto.
Qed.

Lemma on_column_raise nm f (d : DataFrame) (e : exn) :
  on_column nm (str_map f) d = Raise e -> e = AttributeError.
Proof.
  intros H. apply mapM_raise_inv in H as (c & _ & Hc).
  destruct (String.eqb (name c) nm); [|discriminate].
  unfold str_map in Hc. destruct (data c); [|discriminate|discriminate].
  injection Hc as <-. reflexivity.
Qed.

Lemma normalize_named_raise (d : DataFrame) (e : exn) :
  normalize_named d = Raise e -> e = AttributeError.
Proof.
  unfold normalize_named. intros H.
  destruct (on_column "Sex" (str_map PyStr.lower) d) as [d1|e1] eqn:E1;
    simpl in H.
  - destruct (on_column "Ticket" (str_map PyStr.upper) d1) as [d2|e2] eqn:E2;
      simpl in H.
    + apply mapM_raise_inv in H as (c & _ & Hc).
      destruct (String.eqb (name c) "Embarked"); discriminate.
    + injection H as <-. apply (on_column_raise _ _ _ _ E2).
  - injection H as <-. apply (on_column_raise _ _ _ _ E1).
Qed.

(** X18: the cleaner fails exactly when a column named Sex or Ticket is
    numeric, and then with [AttributeError]; on every other table it returns
    a cleaned table. *)
Theorem clean_raises_iff (df : DataFrame) :
  (text_named df = false <-> clean df = Raise AttributeError)
  /\ (text_named df = true <-> exists out, clean df = Ok out).
Proof.
  assert (Hok : text_named df = true -> exists out, clean df = Ok out).
  { intros H. unfold clean. rewrite (normalize_ok df H). eexists. reflexivity. }
  assert (Hinv : forall out, clean df = Ok out -> text_named df = true).
  { intros out H. unfold clean, normalize in H.
    destruct (normalize_named (strip_text_cols (drop_duplicates df))) as [d|] eqn:E;
      simpl in H; [|discriminate].
    apply normalize_named_inv in E as [Ht _].
    rewrite text_named_prepared in Ht. exact Ht. }
  split; split.
  - intros H. destruct (clean df) as [out|e] eqn:E.
    + rewrite (Hinv out eq_refl) in H. discriminate.
    + f_equal. unfold clean, normalize in E.
      destruct (normalize_named (strip_text_cols (drop_duplicates df))) as [d|e'] eqn:En;
        simpl in E; [discriminate|].
      injection E as <-. apply (normalize_named_raise _ _ En).
  - intros H. destruct (text_named df) eqn:E; [|reflexivity].
    destruct (Hok eq_refl) as [out Ho]. congruence.
  - exact Hok.
  - intros [out H]. apply (Hinv out H).
Qed.

(** ** The fill values that are used *)

(** X19: a column that survives the column drop and has a missing value has
    a present one too; a text column is then filled with one of its own
    values, never with the placeholder, and a numeric column has a median
    wherever the mean of two numbers exists. *)
Theorem fill_never_falls_back (d : DataFrame) (c : Series) :
  In c (drop_high_missing d) ->
  isna_any c = true ->
  match data c with
  | Numeric v =>
      dropna v <> [] /\ (midpoint_total num -> exists med, median v = Some med)
  | Object v => In (fill_value v) (dropna v)
  | StringArr v => In (fill_value v) (dropna v)
  end.
Proof.
  intros Hc Ha. pose proof (kept_column_fillable _ _ Hc) as Hf.
  destruct c as [nm [v|v|v]]; cbn [data].
  - assert (Hd : dropna v <> []).
    { assert (Hm : missing_count (mkSeries nm (Numeric v)) <> 0).
      { rewrite missing_0_iff, Ha. discriminate. }
      destruct Hf as [Hf|Hf]; [contradiction|].
      pose proof (dropna_length v) as L. intros Hd. rewrite Hd in L. simpl in L.
      unfold missing_count, size, isna in Hf. cbn [data] in Hf.
      rewrite length_map in Hf. lia. }
    split; [exact Hd|]. intros T. apply (median_some v T Hd).
  - apply fill_value_present.
    apply (text_present_values nm v Object); auto.
  - apply fill_value_present.
    apply (text_present_values nm v StringArr); auto.
Qed.

End CleanerFacts.

(** * The cleaner on the sample frames *)

Section CleanerSamples.

Abbreviation coldata := (@coldata Qc).
Abbreviation Series := (@Series Qc).
Abbreviation DataFrame := (@DataFrame Qc).
Abbreviation cell := (@cell Qc).

Lemma clean_no_missing_unless_no_median_witness :
  text_named demo_passengers = true
  /\ midpoint_total Qc
  /\ exists out,
       clean demo_passengers = Ok out
       /\ forall c, In c out -> missing_count c = 0.
Proof.
  assert (T : midpoint_total Qc) by (intros a b; discriminate).
  split; [reflexivity|]. split; [exact T|].
  destruct (clean_no_missing_unless_no_median demo_passengers eq_refl)
    as (out & E & _ & H).
  exists out. split; [exact E | exact (H T)].
Defined.

(** C1 as stated fails: a numeric column holding -inf, +inf and one missing
    value is kept (a third of it is missing), its median is the mean of -inf
    and +inf, which is NaN, and the fill leaves the hole where it was. *)
Lemma infinite_middle_keeps_a_hole : ~ no_missing_unless_all_missing.
Proof.
  intros H.
  assert (E : clean demo_infinite_middle = Ok demo_infinite_middle)
    by reflexivity.
  destruct (H _ _ E (mkSeries "A" (Numeric [Some NegInf; Some PosInf; None])))
    as [K|K].
  - right. left. reflexivity.
  - discriminate K.
  - discriminate K.
Qed.

Lemma drop_iff_fraction_exceeds_witness :
  ~ In seven_of_ten (drop_high_missing [seven_of_ten; six_of_ten]) /\
  In six_of_ten (drop_high_missing [seven_of_ten; six_of_ten]).
Proof.
  destruct (@drop_iff_fraction_exceeds Qc) as (_ & H7 & H6). split.
  - apply H7; [simpl; auto | reflexivity | reflexivity].
  - apply H6; [simpl; auto | reflexivity | reflexivity].
Defined.

Lemma clean_zero_rows_witness :
  zero_rows demo_header_only = true /\ text_named demo_header_only = true /\
  exists out, clean demo_header_only = Ok out
              /\ map name out = map name demo_header_only
              /\ zero_rows out = true.
Proof.
  split; [reflexivity|]. split; [reflexivity|].
  apply (clean_zero_rows demo_header_only); reflexivity.
Defined.

Lemma normalize_by_exact_name_witness :
  normalize demo_lowercase_header = Ok [mkSeries "sex" (StringArr [Some "MALE"])]
  /\ [mkSeries "sex" (StringArr [Some "MALE"])]
     = map named_cleanup
         (strip_text_cols (drop_duplicates demo_lowercase_header))
  /\ named_cleanup (mkSeries "sex" (StringArr [Some "MALE"]) : Series)
     = mkSeries "sex" (StringArr [Some "MALE"]).
Proof.
  destruct (@normalize_by_exact_name Qc _) as (H & _ & _ & _ & H4).
  split; [reflexivity|]. split.
  - apply (H demo_lowercase_header). reflexivity.
  - apply H4; simpl; discriminate.
Defined.

(** C5 as stated fails: a column named "sex" matches "Sex" up to letter
    case, and its values keep their capitals. *)
Lemma lowercase_header_not_matched :
  exists out c,
    normalize demo_lowercase_header = Ok out /\ In c out
    /\ PyStr.lower (name c) = PyStr.lower "Sex"
    /\ text_values c = [Some "MALE"]
    /\ text_values c <> map (option_map PyStr.lower) (text_values c).
Proof.
  exists [mkSeries "sex" (StringArr [Some "MALE"])].
  exists (mkSeries "sex" (StringArr [Some "MALE"])).
  split; [reflexivity|]. split; [left; reflexivity|].
  split; [reflexivity|]. split; [reflexivity|].
  simpl. discriminate.
Qed.

Lemma fill_value_least_mode_witness :
  dropna [Some "S"; Some "C"; None; Some "S"; Some "C"; Some "Q"] <> []
  /\ fill_value [Some "S"; Some "C"; None; Some "S"; Some "C"; Some "Q"] = "C"
  /\ String.leb (fill_value [Some "S"; Some "C"; None; Some "S"; Some "C"; Some "Q"]) "S" = true.
Proof.
  split; [simpl; discriminate|]. split; [reflexivity|].
  apply (fill_value_least_mode
           [Some "S"; Some "C"; None; Some "S"; Some "C"; Some "Q"]).
  - simpl; discriminate.
  - simpl; auto.
  - reflexivity.
Defined.

Lemma clean_twice_only_deduplicates_witness :
  clean demo_passengers
  = Ok [ mkSeries "Age" (Numeric [qz 22; qz 30; qz 30; qz 41]);
         mkSeries "Sex" (StringArr [Some "male"; Some "female"; Some "female";
                                    Some "female"]) ]
  /\ (forall x,
        In x [ mkSeries "Age" (Numeric [qz 22; qz 30; qz 30; qz 41]);
               mkSeries "Sex" (StringArr [Some "male"; Some "female";
                                          Some "female"; Some "female"]) ] ->
        missing_count x = 0)
  /\ clean [ mkSeries "Age" (Numeric [qz 22; qz 30; qz 30; qz 41]);
            mkSeries "Sex" (StringArr [Some "male"; Some "female"; Some "female";
                                       Some "female"]) ]
     = Ok (drop_duplicates
             [ mkSeries "Age" (Numeric [qz 22; qz 30; qz 30; qz 41]);
               mkSeries "Sex" (StringArr [Some "male"; Some "female";
                                          Some "female"; Some "female"]) ]).
Proof.
  assert (E : clean demo_passengers
    = Ok [ mkSeries "Age" (Numeric [qz 22; qz 30; qz 30; qz 41]);
           mkSeries "Sex" (StringArr [Some "male"; Some "female"; Some "female";
                                      Some "female"]) ]).
  { vm_compute. repeat f_equal; apply Qc_is_canon; reflexivity. }
  assert (M : forall x,
             In x [ mkSeries "Age" (Numeric [qz 22; qz 30; qz 30; qz 41]);
                    mkSeries "Sex" (StringArr [Some "male"; Some "female";
                                               Some "female"; Some "female"]) ] ->
             missing_count x = 0).
  { intros x [<-|[<-|[]]]; reflexivity. }
  split; [exact E|]. split; [exact M|].
  apply (clean_twice_only_deduplicates demo_passengers _ E M).
Defined.

(** C4 as stated fails: trimming makes ["a "] and ["a"] equal after the
    duplicates were removed, so a second run removes a row. *)
Lemma clean_not_idempotent :
  ~ (forall df c : DataFrame, clean df = Ok c -> clean c = Ok c).
Proof.
  intros H.
  assert (E : clean demo_trailing_space
              = Ok [mkSeries "Name" (StringArr [Some "a"; Some "a"])])
    by reflexivity.
  specialize (H _ _ E). vm_compute in H. discriminate.
Qed.

Lemma drop_duplicates_keeps_first_witness :
  rectangular demo_repeated_rows = true
  /\ rows (drop_duplicates demo_repeated_rows)
     = unique row_eqb (rows demo_repeated_rows).
Proof.
  split; [reflexivity|].
  apply (drop_duplicates_keeps_first demo_repeated_rows). reflexivity.
Defined.

Lemma drop_duplicates_idempotent_witness :
  rectangular demo_repeated_rows = true
  /\ drop_duplicates (drop_duplicates demo_repeated_rows)
     = drop_duplicates demo_repeated_rows.
Proof.
  split; [reflexivity|].
  apply (drop_duplicates_idempotent demo_repeated_rows). reflexivity.
Defined.

Lemma clean_row_count_witness :
  rectangular demo_repeated_rows = true
  /\ clean demo_repeated_rows
     = Ok [ mkSeries "Pclass" (Numeric [qz 1; qz 3; qz 3]);
            mkSeries "Name" (StringArr [Some "Ann"; Some "Bob"; Some "Bob"]) ]
  /\ rectangular [ mkSeries "Pclass" (Numeric [qz 1; qz 3; qz 3]);
                   mkSeries "Name" (StringArr [Some "Ann"; Some "Bob"; Some "Bob"]) ]
     = true.
Proof.
  assert (E : clean demo_repeated_rows
     = Ok [ mkSeries "Pclass" (Numeric [qz 1; qz 3; qz 3]);
            mkSeries "Name" (StringArr [Some "Ann"; Some "Bob"; Some "Bob"]) ])
    by reflexivity.
  split; [reflexivity|]. split; [exact E|].
  apply (clean_row_count demo_repeated_rows _ eq_refl E).
Defined.

Lemma strip_column_trims_witness :
  is_object demo_padded = true
  /\ text_values (strip_column demo_padded)
     = [Some "Braund, Mr. Owen"; None; Some "Heikkinen"]
  /\ PyStr.lstrip "Braund, Mr. Owen" = "Braund, Mr. Owen".
Proof.
  split; [reflexivity|]. split; [reflexivity|].
  apply (proj1 (strip_column_trims demo_padded eq_refl)). simpl. auto.
Defined.

Lemma imputation_keeps_present_cells_witness :
  In (mkSeries "Age" (Numeric [qz 22; qz 30; qz 30; qz 41]))
     (handle_missing [mkSeries "Age" (Numeric [qz 22; None; qz 30; qz 41])])
  /\ exists c, In c [mkSeries "Age" (Numeric [qz 22; None; qz 30; qz 41])]
       /\ name (mkSeries "Age" (Numeric [qz 22; qz 30; qz 30; qz 41])) = name c
       /\ size (mkSeries "Age" (Numeric [qz 22; qz 30; qz 30; qz 41])) = size c
       /\ Forall2 (fun a b => cell_missing a = false -> b = a)
             (cells c)
             (cells (mkSeries "Age" (Numeric [qz 22; qz 30; qz 30; qz 41]))).
Proof.
  assert (H : In (mkSeries "Age" (Numeric [qz 22; qz 30; qz 30; qz 41]))
     (handle_missing [mkSeries "Age" (Numeric [qz 22; None; qz 30; qz 41])])).
  { left. vm_compute. qc_equal. }
  split; [exact H|].
  apply (imputation_keeps_present_cells _ _ H).
Defined.

Lemma cleaned_named_columns_witness :
  clean demo_passengers
  = Ok [ mkSeries "Age" (Numeric [qz 22; qz 30; qz 30; qz 41]);
         mkSeries "Sex" (StringArr [Some "male"; Some "female"; Some "female";
                                    Some "female"]) ]
  /\ PyStr.lower "female" = "female".
Proof.
  assert (E : clean demo_passengers
    = Ok [ mkSeries "Age" (Numeric [qz 22; qz 30; qz 30; qz 41]);
           mkSeries "Sex" (StringArr [Some "male"; Some "female"; Some "female";
                                      Some "female"]) ]).
  { vm_compute. qc_equal. }
  split; [exact E|].
  refine (proj1 (cleaned_named_columns demo_passengers _
                   (mkSeries "Sex" (StringArr [Some "male"; Some "female";
                                               Some "female"; Some "female"]))
                   E _) eq_refl "female" _).
  - right. left. reflexivity.
  - right. left. reflexivity.
Defined.

Lemma clean_column_names_witness :
  clean demo_passengers
  = Ok [ mkSeries "Age" (Numeric [qz 22; qz 30; qz 30; qz 41]);
         mkSeries "Sex" (StringArr [Some "male"; Some "female"; Some "female";
                                    Some "female"]) ]
  /\ exists keep : list bool,
       List.length keep = List.length demo_passengers
       /\ ["Age"; "Sex"] = take_mask keep (map name demo_passengers).
Proof.
  assert (E : clean demo_passengers
    = Ok [ mkSeries "Age" (Numeric [qz 22; qz 30; qz 30; qz 41]);
           mkSeries "Sex" (StringArr [Some "male"; Some "female"; Some "female";
                                      Some "female"]) ]).
  { vm_compute. qc_equal. }
  split; [exact E|].
  apply (clean_column_names demo_passengers _ E).
Defined.

Lemma missing_report_lists_incomplete_columns_witness :
  missing_report demo_passengers = [("Cabin", 3); ("Age", 1); ("Sex", 1)]
  /\ clean demo_passengers
     = Ok [ mkSeries "Age" (Numeric [qz 22; qz 30; qz 30; qz 41]);
            mkSeries "Sex" (StringArr [Some "male"; Some "female"; Some "female";
                                       Some "female"]) ]
  /\ missing_report
       [ mkSeries "Age" (Numeric [qz 22; qz 30; qz 30; qz 41]);
         mkSeries "Sex" (StringArr [Some "male"; Some "female"; Some "female";
                                    Some "female"]) ] = [].
Proof.
  assert (E : clean demo_passengers
    = Ok [ mkSeries "Age" (Numeric [qz 22; qz 30; qz 30; qz 41]);
           mkSeries "Sex" (StringArr [Some "male"; Some "female"; Some "female";
                                      Some "female"]) ]).
  { vm_compute. qc_equal. }
  split; [reflexivity|]. split; [exact E|].
  apply (proj2 (proj2 (proj2 missing_report_lists_incomplete_columns)
                  demo_passengers _ E)).
  intros a b. discriminate.
Defined.

Lemma fill_never_falls_back_witness :
  In six_of_ten (drop_high_missing [seven_of_ten; six_of_ten])
  /\ isna_any six_of_ten = true
  /\ In (fill_value (text_values six_of_ten)) (dropna (text_values six_of_ten)).
Proof.
  assert (H : In six_of_ten (drop_high_missing [seven_of_ten; six_of_ten]))
    by (left; reflexivity).
  split; [exact H|]. split; [reflexivity|].
  apply (fill_never_falls_back _ six_of_ten H eq_refl).
Defined.

End CleanerSamples.

(** * Properties of the analyzer *)

Section AnalyzerFacts.

Abbreviation coldata := (@coldata Qc).
Abbreviation Series := (@Series Qc).
Abbreviation DataFrame := (@DataFrame Qc).
Abbreviation cell := (@cell Qc).

(** ** Outliers *)

Lemma outliers_in (s : list Qc) (x : Qc) :
  In x (outliers s) <->
  In x s /\ ((x < lower_fence s)%Qc \/ (upper_fence s < x)%Qc).
Proof.
  unfold outliers. rewrite filter_In, orb_true_iff, !Qcltb_lt. reflexivity.
Qed.

(** C2 (as the code computes it): on [1,2,2,3,3,3,4,4,5,100] the
    linear-interpolation quartiles are Q1 = 2.25 and Q3 = 4, so IQR = 1.75
    and the fences are -0.375 and 6.625; 100 is the one outlier, a value
    counting only when it is strictly outside the fences. *)
Theorem outlier_figures :
  Q1 demo_outlier_values = Q2Qc (9 # 4)
  /\ Q3 demo_outlier_values = Qc_of_Z 4
  /\ IQR demo_outlier_values = Q2Qc (7 # 4)
  /\ lower_fence demo_outlier_values = Q2Qc (-3 # 8)
  /\ upper_fence demo_outlier_values = Q2Qc (53 # 8)
  /\ outliers demo_outlier_values = [Qc_of_Z 100]
  /\ outlier_count demo_outlier_column = 1
  /\ (forall s x, In x (outliers s) <->
                  In x s /\ ((x < lower_fence s)%Qc \/ (upper_fence s < x)%Qc)).
Proof.
  split; [apply Qc_is_canon; reflexivity|].
  split; [apply Qc_is_canon; reflexivity|].
  split; [apply Qc_is_canon; reflexivity|].
  split; [apply Qc_is_canon; reflexivity|].
  split; [apply Qc_is_canon; reflexivity|].
  split; [vm_compute; f_equal; apply Qc_is_canon; reflexivity|].
  split; [reflexivity | exact outliers_in].
Qed.

(** C2 as stated fails: the first quartile is not 2. *)
Lemma quartile_figures_not_as_claimed : ~ quartile_figures_as_claimed.
Proof.
  intros [H _]. apply (f_equal this) in H. vm_compute in H. discriminate.
Qed.

(** ** Rate by category *)

Lemma colname_none (df : DataFrame) (target : string) :
  (forall c, In c df -> PyStr.lower (name c) <> PyStr.lower target) ->
  colname df target = None.
Proof.
  induction df as [|c df IH]; simpl; intros H; [reflexivity|].
  destruct (String.eqb_spec (PyStr.lower (name c)) (PyStr.lower target)) as [E|_].
  - exfalso. apply (H c); auto.
  - apply IH. auto.
Qed.

(** C7: on the four rows (male,0), (male,1), (female,1), (female,1) the
    rate table is female = 1, male = 1/2, in this order; without a sex
    column or without a survived column the step is skipped with a
    warning. *)
Theorem survival_rate_by_sex (parse_number : string -> option Qc) :
  (exists df',
      survival_by_sex parse_number demo_four_rows
      = Ok (df', Rates [ (KStr "female", Some (Qc_of_Z 1));
                         (KStr "male", Some (Q2Qc (1 # 2))) ]))
  /\ (forall df,
        (forall c, In c df -> PyStr.lower (name c) <> "sex")
        \/ (forall c, In c df -> PyStr.lower (name c) <> "survived") ->
        survival_by_sex parse_number df
        = Ok (df, RateSkipped
                    "Need both 'sex' and 'survived' for survival-by-sex plot. Skipping.")).
Proof.
  split.
  - exists demo_four_rows. vm_compute. qc_equal.
  - intros df [H|H]; unfold survival_by_sex.
    + rewrite (colname_none df "sex" H). reflexivity.
    + rewrite (colname_none df "survived" H).
      destruct (colname df "sex"); reflexivity.
Qed.

Lemma survival_rate_by_sex_witness :
  (forall c, In c demo_no_outcome -> PyStr.lower (name c) <> "survived")
  /\ survival_by_sex no_parse demo_no_outcome
     = Ok (demo_no_outcome,
           RateSkipped
             "Need both 'sex' and 'survived' for survival-by-sex plot. Skipping.").
Proof.
  assert (H : forall c, In c demo_no_outcome -> PyStr.lower (name c) <> "survived").
  { intros c [<-|[]]. simpl. discriminate. }
  split; [exact H|].
  apply (proj2 (survival_rate_by_sex no_parse) demo_no_outcome). right. exact H.
Defined.

(** ** The input file *)

(** C8: without the input file the run raises at once, nothing written or
    printed before, and the message of the error contains the file name;
    with the file the run goes on to load and analyse it. *)
Theorem missing_input_aborts
  (library : lib_call -> DataFrame -> result unit)
  (parse_number : string -> option Qc) (w : World) :
  (path_exists w input_file = false ->
   eda_main library parse_number w
   = ([], Raise (FileNotFoundError missing_input_message)))
  /\ (exists pre post : string,
         missing_input_message = (pre ++ input_file ++ post)%string)
  /\ (path_exists w input_file = true ->
      eda_main library parse_number w
      = analyze library parse_number (read_csv w input_file)
      /\ exists rest r,
           eda_main library parse_number w = (MakeDirs out_dir :: rest, r)).
Proof.
  split; [|split].
  - intros H. unfold eda_main. rewrite H. reflexivity.
  - exists "❌ '", "' not found. Make sure it is in the same folder as this script.".
    reflexivity.
  - intros H. unfold eda_main. rewrite H. simpl negb. cbv iota.
    assert (E : forall m : io unit, bind_io (ret tt) (fun _ => m) = m).
    { intros [es r]. unfold bind_io, ret. reflexivity. }
    rewrite E. split; [reflexivity|].
    unfold analyze. unfold bind_io at 1. unfold tell at 1.
    match goal with |- context [let (es', r) := ?k in _] => destruct k as [es' r'] end.
    exists es', r'. reflexivity.
Qed.

Lemma missing_input_aborts_witness :
  path_exists demo_world_without_input input_file = false
  /\ eda_main demo_library no_parse demo_world_without_input
     = ([], Raise (FileNotFoundError missing_input_message))
  /\ path_exists demo_world_with_input input_file = true
  /\ eda_main demo_library no_parse demo_world_with_input
     = analyze demo_library no_parse (read_csv demo_world_with_input input_file).
Proof.
  split; [reflexivity|]. split.
  - apply (missing_input_aborts demo_library no_parse demo_world_without_input).
    reflexivity.
  - split; [reflexivity|].
    apply (missing_input_aborts demo_library no_parse demo_world_with_input).
    reflexivity.
Defined.

(** ** Correlation *)

Lemma complete_pairs_swap (x y : list (option Qc)) :
  complete_pairs y x = map (fun p => (snd p, fst p)) (complete_pairs x y).
Proof.
  revert y. induction x as [|[a|] x IH]; intros [|[b|] y]; simpl;
    rewrite ?IH; reflexivity.
Qed.

Lemma complete_pairs_diag (x : list (option Qc)) :
  complete_pairs x x = map (fun a => (a, a)) (dropna x).
Proof.
  induction x as [|[a|] x IH]; simpl; rewrite ?IH; reflexivity.
Qed.

Lemma sum_prod_comm (dx dy : list Qc) : sum_prod dx dy = sum_prod dy dx.
Proof.
  unfold sum_prod. revert dy. induction dx as [|a dx IH]; intros [|b dy]; simpl;
    try reflexivity.
  rewrite IH, (Qcmult_comm a b). reflexivity.
Qed.

Lemma pearson_sym (x y : list (option Qc)) : pearson x y = pearson y x.
Proof.
  unfold pearson. rewrite (complete_pairs_swap x y), !map_map. cbn [fst snd].
  change (map (fun p : Qc * Qc => snd p) (complete_pairs x y))
    with (map snd (complete_pairs x y)).
  change (map (fun p : Qc * Qc => fst p) (complete_pairs x y))
    with (map fst (complete_pairs x y)).
  destruct (mean (map fst (complete_pairs x y))) as [mx|];
    destruct (mean (map snd (complete_pairs x y))) as [my|]; try reflexivity.
  rewrite (sum_prod_comm (deviations (map snd _) my)).
  rewrite (Qcmult_comm (sum_sq (deviations (map snd _) my))).
  reflexivity.
Qed.

Lemma Qc_square_nonneg (a : Qc) : (0 <= a * a)%Qc.
Proof.
  unfold Qcle, Qcmult. cbn [this Q2Qc]. rewrite !Qred_correct.
  destruct a as [[n d] H]. cbn [this]. unfold Qle, Qmult. cbn [Qnum Qden].
  rewrite Z.mul_0_l, Z.mul_1_r. apply Z.square_nonneg.
Qed.

Lemma sum_sq_nonneg (d : list Qc) : (0 <= sum_sq d)%Qc.
Proof.
  unfold sum_sq. induction d as [|a d IH]; simpl.
  - apply Qcle_refl.
  - replace 0%Qc with (0 + 0)%Qc by ring.
    apply Qcplus_le_compat; [apply Qc_square_nonneg | exact IH].
Qed.

Lemma Qc_sum_zero (a b : Qc) :
  (0 <= a)%Qc -> (0 <= b)%Qc -> (a + b = 0)%Qc -> a = 0%Qc /\ b = 0%Qc.
Proof.
  intros Ha Hb H.
  assert (Ea : a = 0%Qc).
  { apply Qcle_antisym; [|exact Ha].
    rewrite <- H. replace a with (a + 0)%Qc at 1 by ring.
    apply Qcplus_le_compat; [apply Qcle_refl | exact Hb]. }
  split; [exact Ea|]. rewrite Ea in H. rewrite <- H. ring.
Qed.

Lemma sum_sq_zero (d : list Qc) :
  sum_sq d = 0%Qc <-> forall a, In a d -> a = 0%Qc.
Proof.
  unfold sum_sq. induction d as [|a d IH]; simpl.
  - split; [contradiction | reflexivity].
  - split.
    + intros H.
      destruct (Qc_sum_zero _ _ (Qc_square_nonneg a) (sum_sq_nonneg d) H) as [Ea Ed].
      intros b [<-|Hb].
      * destruct (Qcmult_integral _ _ Ea); assumption.
      * apply (proj1 IH Ed b Hb).
    + intros H. rewrite (H a) by auto.
      rewrite (proj2 IH) by auto. ring.
Qed.

Lemma Qc_of_nat_S (n : nat) : Qc_of_nat (S n) = (1 + Qc_of_nat n)%Qc.
Proof.
  apply Qc_is_canon. unfold Qc_of_nat, Qcplus. cbn [this Q2Qc].
  rewrite !Qred_correct. rewrite Nat2Z.inj_succ, <- Z.add_1_l, inject_Z_plus.
  reflexivity.
Qed.

Lemma Qc_of_nat_nonzero (n : nat) : Qc_of_nat (S n) <> 0%Qc.
Proof.
  intros H. apply (f_equal this) in H. unfold Qc_of_nat in H. cbn [this Q2Qc] in H.
  assert (K : (inject_Z (Z.of_nat (S n)) == 0)%Q).
  { rewrite <- (Qred_correct (inject_Z (Z.of_nat (S n)))), H. reflexivity. }
  unfold Qeq in K. simpl in K. lia.
Qed.

Lemma sum_constant (p : list Qc) (a0 : Qc) :
  (forall a, In a p -> a = a0) -> sumQc p = (Qc_of_nat (List.length p) * a0)%Qc.
Proof.
  unfold sumQc. induction p as [|a p IH]; intros H.
  - cbn [fold_right List.length]. change (Qc_of_nat 0) with 0%Qc.
    change Qc_zero with 0%Qc. ring.
  - cbn [fold_right List.length]. rewrite IH by (intros b Hb; apply H; right; exact Hb).
    rewrite (H a) by (left; reflexivity). rewrite Qc_of_nat_S. ring.
Qed.

Lemma mean_constant (p : list Qc) (a0 : Qc) :
  p <> [] -> (forall a, In a p -> a = a0) -> mean p = Some a0.
Proof.
  intros Hp H. unfold mean. destruct p as [|a p]; [congruence|].
  rewrite (sum_constant _ a0 H). f_equal. cbn [List.length].
  rewrite Qcmult_comm. apply Qcdiv_mult_l, Qc_of_nat_nonzero.
Qed.

Lemma varies_false_inv (p : list Qc) :
  varies p = false -> exists a0, forall a, In a p -> a = a0.
Proof.
  destruct p as [|a0 p]; simpl; intros H.
  - exists 0%Qc. contradiction.
  - exists a0. intros a [<-|Ha]; [reflexivity|].
    destruct (Qceqb a0 a) eqn:E; [symmetry; apply Qceqb_eq, E|].
    exfalso. apply not_true_iff_false in H. apply H.
    apply existsb_exists. exists a. rewrite E. auto.
Qed.

Lemma deviations_zero (p : list Qc) (m : Qc) :
  sum_sq (deviations p m) = 0%Qc <-> forall a, In a p -> a = m.
Proof.
  rewrite sum_sq_zero. unfold deviations. split; intros H a Ha.
  - specialize (H (a - m)%Qc (in_map _ _ _ Ha)).
    replace a with ((a - m) + m)%Qc by ring. rewrite H. ring.
  - apply in_map_iff in Ha as (b & <- & Hb). rewrite (H b Hb). ring.
Qed.

(** The self-correlation of a column whose present values are all the same,
    or that has none, is NaN. *)
Lemma pearson_constant (x : list (option Qc)) :
  varies (dropna x) = false -> pearson x x = None.
Proof.
  intros Ev. unfold pearson. rewrite complete_pairs_diag, !map_map. cbn [fst snd].
  rewrite map_id. set (p := dropna x) in *.
  destruct (mean p) as [m|] eqn:Em; [|reflexivity].
  destruct (varies_false_inv p Ev) as [a0 H].
  assert (Hp : p <> []) by (intros K; rewrite K in Em; discriminate).
  rewrite (mean_constant p a0 Hp H) in Em. injection Em as <-.
  assert (K : sum_sq (deviations p a0) = 0%Qc) by (apply deviations_zero, H).
  rewrite K. reflexivity.
Qed.

Lemma corr_length (cols : list Series) :
  List.length (corr cols) = List.length cols.
Proof. unfold corr. apply length_map. Qed.

Lemma corr_row_length (cols : list Series) (row : list (option R)) :
  In row (corr cols) -> List.length row = List.length cols.
Proof.
  unfold corr. intros H. apply in_map_iff in H as (a & <- & _). apply length_map.
Qed.

Lemma entry_corr (cols : list Series) (i j : nat) :
  i < List.length cols -> j < List.length cols ->
  entry (corr cols) i j
  = pearson (numeric_values (nth i cols no_column))
            (numeric_values (nth j cols no_column)).
Proof.
  intros Hi Hj. unfold entry, corr.
  rewrite (nth_indep _ []
             (map (fun b => pearson (numeric_values no_column) (numeric_values b)) cols))
    by (rewrite length_map; exact Hi).
  rewrite (map_nth (fun a => map (fun b => pearson (numeric_values a) (numeric_values b)) cols)).
  rewrite (nth_indep _ None
             (pearson (numeric_values (nth i cols no_column)) (numeric_values no_column)))
    by (rewrite length_map; exact Hj).
  rewrite (map_nth (fun b => pearson (numeric_values (nth i cols no_column))
                               (numeric_values b))).
  reflexivity.
Qed.

Lemma entry_corr_outside (cols : list Series) (i j : nat) :
  List.length cols <= i \/ List.length cols <= j ->
  entry (corr cols) i j = None.
Proof.
  intros H. unfold entry.
  destruct (le_lt_dec (List.length cols) i) as [Hi|Hi].
  - rewrite (nth_overflow (corr cols)) by (rewrite corr_length; exact Hi).
    destruct j; reflexivity.
  - destruct H as [H|H]; [lia|].
    apply nth_overflow. rewrite (corr_row_length cols); [exact H|].
    apply nth_In. rewrite corr_length. exact Hi.
Qed.

Lemma entry_corr_sym (cols : list Series) (i j : nat) :
  entry (corr cols) i j = entry (corr cols) j i.
Proof.
  destruct (le_lt_dec (List.length cols) i) as [Hi|Hi].
  { rewrite !entry_corr_outside; auto. }
  destruct (le_lt_dec (List.length cols) j) as [Hj|Hj].
  { rewrite !entry_corr_outside; auto. }
  rewrite !entry_corr by assumption. apply pearson_sym.
Qed.

Lemma entry_corr_constant (cols : list Series) (i : nat) :
  i < List.length cols ->
  varies (dropna (numeric_values (nth i cols no_column))) = false ->
  entry (corr cols) i i = None.
Proof.
  intros Hi Hv. rewrite entry_corr by assumption. apply pearson_constant, Hv.
Qed.

Lemma correlation_step_enough (df : DataFrame) :
  2 <= List.length (num_cols df) ->
  correlation_step df = CorrMatrix (map name (num_cols df)) (corr (num_cols df)).
Proof.
  intros H. unfold correlation_step.
  destruct (Nat.leb_spec 2 (List.length (num_cols df))); [reflexivity | lia].
Qed.

Lemma correlation_step_skipped (df : DataFrame) :
  List.length (num_cols df) < 2 ->
  correlation_step df = CorrSkipped "Not enough numeric columns for correlation.".
Proof.
  intros H. unfold correlation_step.
  destruct (Nat.leb_spec 2 (List.length (num_cols df))); [lia | reflexivity].
Qed.

(** C6 (as the code has it): with two numeric columns or more the step yields a
    square matrix with one line and one column per numeric column, labelled
    by their names in order, and symmetric; the diagonal entry of a column
    whose present values are all the same, or that has none, is NaN, not 1;
    with fewer numeric columns the step is skipped with a warning. *)
Theorem correlation_matrix (df : DataFrame) :
  (2 <= List.length (num_cols df) ->
   correlation_step df = CorrMatrix (map name (num_cols df)) (corr (num_cols df))
   /\ List.length (corr (num_cols df)) = List.length (num_cols df)
   /\ (forall row, In row (corr (num_cols df)) ->
                   List.length row = List.length (num_cols df))
   /\ (forall i j, entry (corr (num_cols df)) i j = entry (corr (num_cols df)) j i)
   /\ (forall i, i < List.length (num_cols df) ->
                 varies (dropna (numeric_values (nth i (num_cols df) no_column)))
                 = false ->
                 entry (corr (num_cols df)) i i = None))
  /\ (List.length (num_cols df) < 2 ->
      correlation_step df
      = CorrSkipped "Not enough numeric columns for correlation.").
Proof.
  split.
  - intros H. split; [apply correlation_step_enough, H|].
    split; [apply corr_length|]. split; [apply corr_row_length|].
    split; [apply entry_corr_sym | apply entry_corr_constant].
  - apply correlation_step_skipped.
Qed.

Lemma correlation_matrix_witness :
  2 <= List.length (num_cols demo_constant_column)
  /\ correlation_step demo_constant_column
     = CorrMatrix (map name (num_cols demo_constant_column))
                  (corr (num_cols demo_constant_column))
  /\ List.length (num_cols demo_no_outcome) < 2
  /\ correlation_step demo_no_outcome
     = CorrSkipped "Not enough numeric columns for correlation.".
Proof.
  split; [simpl; lia|]. split.
  - apply (correlation_matrix demo_constant_column). simpl; lia.
  - split; [simpl; lia|].
    apply (correlation_matrix demo_no_outcome). simpl; lia.
Defined.

(** C6 as stated fails: the self-correlation of a constant column is NaN,
    not 1. *)
Lemma constant_column_diagonal_nan :
  ~ (forall df labels m i,
        correlation_step df = CorrMatrix labels m ->
        i < List.length labels -> entry m i i = Some 1%R).
Proof.
  intros H.
  assert (E : 2 <= List.length (num_cols demo_constant_column)) by (simpl; lia).
  specialize (H demo_constant_column _ _ 0 (correlation_step_enough _ E)).
  rewrite entry_corr_constant in H by (simpl; try lia; reflexivity).
  assert (K : 0 < List.length (map name (num_cols demo_constant_column)))
    by (simpl; lia).
  specialize (H K). discriminate.
Qed.

(** ** Column lookup in the analyzer *)

Lemma getitem_ok (df : DataFrame) (nm : string) :
  In nm (map name df) ->
  exists c, getitem df nm = Ok c /\ name c = nm /\ In c df.
Proof.
  induction df as [|c df IH]; simpl; [contradiction|]. intros H.
  destruct (String.eqb_spec (name c) nm) as [E|N].
  - exists c. auto.
  - destruct H as [H|H]; [contradiction|].
    destruct (IH H) as (c' & E1 & E2 & E3). exists c'. auto.
Qed.

Lemma colname_some (df : DataFrame) (target n : string) :
  colname df target = Some n ->
  PyStr.lower n = PyStr.lower target /\ In n (map name df).
Proof.
  induction df as [|c df IH]; simpl; [discriminate|].
  destruct (String.eqb_spec (PyStr.lower (name c)) (PyStr.lower target)) as [E|N].
  - intros [= <-]. auto.
  - intros H. destruct (IH H). auto.
Qed.

Lemma colname_none_inv (df : DataFrame) (target : string) :
  colname df target = None ->
  forall c, In c df -> PyStr.lower (name c) <> PyStr.lower target.
Proof.
  induction df as [|c df IH]; simpl; [contradiction|].
  destruct (String.eqb_spec (PyStr.lower (name c)) (PyStr.lower target)) as [E|N];
    [discriminate|].
  intros H x [<-|Hx]; [exact N | apply (IH H x Hx)].
Qed.

(** X9: [colname] finds a column exactly when some column name equals the
    target up to letter case; the name it returns is such a name, and
    indexing the frame with it succeeds. *)
Theorem colname_resolves (df : DataFrame) (target : string) :
  (colname df target = None <->
   forall c, In c df -> PyStr.lower (name c) <> PyStr.lower target)
  /\ (forall n, colname df target = Some n ->
                PyStr.lower n = PyStr.lower target
                /\ exists c, getitem df n = Ok c /\ name c = n /\ In c df).
Proof.
  split.
  - split; [apply colname_none_inv | apply colname_none].
  - intros n H. apply colname_some in H as [E Hin]. split; [exact E|].
    apply getitem_ok, Hin.
Qed.

Lemma colname_resolves_witness :
  colname demo_passengers "sex" = Some "Sex"
  /\ PyStr.lower "Sex" = PyStr.lower "sex"
  /\ exists c, getitem demo_passengers "Sex" = Ok c /\ name c = "Sex"
                /\ In c demo_passengers.
Proof.
  split; [reflexivity|].
  apply (proj2 (colname_resolves demo_passengers "sex") "Sex"). reflexivity.
Defined.

Lemma setitem_names (df : DataFrame) (nm : string) (d : coldata) :
  map name (setitem df nm d) = map name df.
Proof.
  unfold setitem. rewrite map_map. apply map_ext. intros c.
  destruct (String.eqb_spec (name c) nm) as [E|N]; [symmetry; exact E | reflexivity].
Qed.

Lemma survival_by_sex_ok (parse_number : string -> option Qc) (df : DataFrame) :
  exists df' r,
    survival_by_sex parse_number df = Ok (df', r)
    /\ map name df' = map name df.
Proof.
  unfold survival_by_sex.
  destruct (colname df "sex") as [sx|] eqn:Ex;
    [|exists df; eexists; split; reflexivity].
  destruct (colname df "survived") as [sv|] eqn:Ev;
    [|exists df; eexists; split; reflexivity].
  apply colname_some in Ex as [_ Hx]. apply colname_some in Ev as [_ Hv].
  destruct (getitem_ok df sv Hv) as (s & -> & _ & _). cbn [bind].
  set (df' := setitem df sv (Numeric (to_numeric parse_number s))).
  assert (N : map name df' = map name df) by apply setitem_names.
  destruct (getitem_ok df' sx) as (g & -> & _ & _); [rewrite N; exact Hx|].
  destruct (getitem_ok df' sv) as (o & -> & _ & _); [rewrite N; exact Hv|].
  cbn [bind]. exists df'. eexists. split; [reflexivity | exact N].
Qed.

(** X10: the rate-by-sex step never fails on a column lookup, whatever the
    frame; it leaves the column names as they are, and it is skipped exactly
    when the sex column or the survived column is not found. *)
Theorem survival_by_sex_never_raises
    (parse_number : string -> option Qc) (df : DataFrame) :
  exists df' r,
    survival_by_sex parse_number df = Ok (df', r)
    /\ map name df' = map name df
    /\ ((exists w, r = RateSkipped w) <->
        (colname df "sex" = None \/ colname df "survived" = None)).
Proof.
  destruct (survival_by_sex_ok parse_number df) as (df' & r & E & N).
  exists df', r. split; [exact E|]. split; [exact N|].
  unfold survival_by_sex in E.
  destruct (colname df "sex") as [sx|] eqn:Ex.
  - destruct (colname df "survived") as [sv|] eqn:Ev.
    + destruct (getitem df sv) as [s|]; [|discriminate]. cbn [bind] in E.
      destruct (getitem _ sx) as [g|]; [|discriminate]. cbn [bind] in E.
      destruct (getitem _ sv) as [o|]; [|discriminate]. cbn [bind] in E.
      injection E as _ <-. split.
      * intros [w Hw]. discriminate.
      * intros [H|H]; discriminate.
    + injection E as _ <-. split; [auto | intros _; eexists; reflexivity].
  - injection E as _ <-. split; [auto | intros _; eexists; reflexivity].
Qed.

(** ** The effects of a run *)

Section Containment.

Variable library : lib_call -> DataFrame -> result unit.
Variable parse_number : string -> option Qc.

Lemma contained_tell (e : effect) :
  inside_out_dir e = true -> contained library (tell e).
Proof. intros H. split; [|exact I]. simpl. rewrite H. reflexivity. Qed.

Lemma contained_ret : contained library (ret tt).
Proof. split; [reflexivity | exact I]. Qed.

Lemma contained_call (k : lib_call) (d : DataFrame) :
  contained library (lift (library k d)).
Proof.
  split; [reflexivity|]. simpl. destruct (library k d) as [u|e] eqn:E; [exact I|].
  exists k, d. exact E.
Qed.

Lemma contained_bind (m : io unit) (k : unit -> io unit) :
  contained library m -> contained library (k tt) ->
  contained library (bind_io m k).
Proof.
  destruct m as [es [[]|e]]; intros [He Hr] [Ke Kr]; simpl in He, Hr.
  - unfold bind_io. destruct (k tt) as [es' r'] eqn:E. simpl in Ke, Kr.
    split; simpl; [|exact Kr]. rewrite forallb_app, He, Ke. reflexivity.
  - split; [exact He | exact Hr].
Qed.

Lemma bind_lift_ok {A} (a : A) (k : A -> io unit) :
  bind_io (lift (Ok a)) k = k a.
Proof. unfold bind_io, lift. destruct (k a). reflexivity. Qed.

Lemma age_bins_step_contained (df df' : DataFrame) :
  map name df' = map name df ->
  contained library
    (age_bins_step library parse_number df' (colname df "survived")).
Proof.
  intros Hn. unfold age_bins_step.
  destruct (colname df' "age") as [ag|] eqn:Ea;
    [|apply contained_tell; reflexivity].
  destruct (colname df "survived") as [sv|] eqn:Ev;
    [|apply contained_tell; reflexivity].
  apply colname_some in Ea as [_ Ha]. apply colname_some in Ev as [_ Hv].
  destruct (getitem_ok df' ag Ha) as (a & -> & _ & _).
  destruct (getitem_ok df' sv) as (s & -> & _ & _); [rewrite Hn; exact Hv|].
  rewrite !bind_lift_ok.
  destruct (complete_pairs _ _); [apply contained_tell; reflexivity|].
  apply contained_bind; [apply contained_call|].
  apply contained_bind; [apply contained_call|].
  apply contained_bind; apply contained_tell; reflexivity.
Qed.

Lemma analyze_contained (df : DataFrame) :
  contained library (analyze library parse_number df).
Proof.
  unfold analyze.
  apply contained_bind; [apply contained_tell; reflexivity|].
  apply contained_bind;
    [destruct (num_cols df); apply contained_tell; reflexivity|].
  apply contained_bind; [apply contained_tell; reflexivity|].
  apply contained_bind.
  { destruct (correlation_step df); [|apply contained_tell; reflexivity].
    apply contained_bind; [apply contained_tell; reflexivity|].
    apply contained_bind; [apply contained_call|].
    apply contained_tell; reflexivity. }
  apply contained_bind.
  { destruct (num_cols df); [apply contained_ret|].
    apply contained_bind; [apply contained_call|].
    apply contained_tell; reflexivity. }
  apply contained_bind.
  { destruct (colname df "sex"); [|apply contained_tell; reflexivity].
    apply contained_bind; [apply contained_call|].
    apply contained_tell; reflexivity. }
  destruct (survival_by_sex_ok parse_number df) as (df' & r & -> & Hn).
  rewrite bind_lift_ok. cbn [fst snd].
  apply contained_bind.
  - destruct r; [|apply contained_tell; reflexivity].
    apply contained_bind; [apply contained_call|].
    apply contained_bind; apply contained_tell; reflexivity.
  - apply age_bins_step_contained, Hn.
Qed.

(** X11: whatever the table and whatever the plotting and binning calls do,
    every file the analysis writes lies in the output directory, which it
    creates first; no column lookup fails: the run ends by an exception only
    if one of those calls raised it, and ends normally when they all
    return. *)
Theorem analyze_stays_in_out_dir (df : DataFrame) :
  forallb inside_out_dir (fst (analyze library parse_number df)) = true
  /\ (exists rest,
        fst (analyze library parse_number df) = MakeDirs out_dir :: rest)
  /\ (forall e, snd (analyze library parse_number df) = Raise e ->
                exists k d, library k d = Raise e)
  /\ ((forall k d, library k d = Ok tt) ->
      snd (analyze library parse_number df) = Ok tt).
Proof.
  destruct (analyze_contained df) as [He Hr].
  split; [exact He|]. split; [|split].
  - unfold analyze. unfold bind_io at 1. unfold tell at 1.
    match goal with
    | |- context [let (es', r) := ?k in _] => destruct k as [es' r']
    end.
    exists es'. reflexivity.
  - intros e E. rewrite E in Hr. exact Hr.
  - intros Hl. destruct (snd (analyze library parse_number df)) as [[]|e];
      [reflexivity|].
    destruct Hr as (k & d & E). rewrite Hl in E. discriminate.
Qed.

End Containment.

Lemma analyze_stays_in_out_dir_witness :
  (forall k d, demo_library k d = Ok tt)
  /\ snd (analyze demo_library no_parse demo_four_rows) = Ok tt.
Proof.
  assert (H : forall k d, demo_library k d = Ok tt) by reflexivity.
  split; [exact H|].
  apply (analyze_stays_in_out_dir demo_library no_parse demo_four_rows), H.
Defined.

(** ** Sorted output *)

(** X12: the outlier report has one line per numeric column, with that
    column's count, and its counts never increase down the report. *)
Theorem outlier_series_sorted (df : DataFrame) :
  Permutation (outlier_series df)
              (map (fun c => (name c, outlier_count c)) (num_cols df))
  /\ StronglySorted (fun a b => snd b <= snd a) (outlier_series df)
  /\ List.length (outlier_series df) = List.length (num_cols df).
Proof.
  unfold outlier_series. split; [apply sort_perm|]. split.
  - apply (StronglySorted_impl (fun a b : string * nat => (snd b <=? snd a) = true)).
    + intros a b H. apply Nat.leb_le, H.
    + apply (sort_sorted _ (fun _ => True)).
      * intros x y z _ _ _ H1 H2. apply Nat.leb_le in H1, H2. apply Nat.leb_le. lia.
      * intros x y _ _ H. apply Nat.leb_gt in H. apply Nat.leb_le. lia.
      * apply Forall_forall. auto.
  - rewrite sort_length, length_map. reflexivity.
Qed.

(** ** Bounds on the statistics *)

Lemma Qcleb_total (x y : Qc) : Qcleb x y = false -> Qcleb y x = true.
Proof.
  intros H. apply Qcleb_le. apply not_true_iff_false in H.
  rewrite Qcleb_le in H. apply Qcnot_lt_le. intros K. apply H.
  apply Qclt_le_weak, K.
Qed.

Lemma Qcleb_trans (x y z : Qc) :
  Qcleb x y = true -> Qcleb y z = true -> Qcleb x z = true.
Proof. rewrite !Qcleb_le. apply Qcle_trans. Qed.

Lemma minQc_least (l : list Qc) (m : Qc) :
  minQc l = Some m -> In m l /\ forall x, In x l -> (m <= x)%Qc.
Proof.
  destruct l as [|x0 l]; [discriminate|]. simpl. intros [= <-].
  induction l as [|a l [Hin Hle]]; simpl.
  - split; [auto|]. intros x [<-|[]]. apply Qcle_refl.
  - destruct (Qcleb a _) eqn:E.
    + split; [auto|]. intros x [<-|[<-|Hx]].
      * apply Qcle_trans with (fold_right (fun a m => if Qcleb a m then a else m) x0 l);
          [apply Qcleb_le, E | apply Hle; auto].
      * apply Qcle_refl.
      * apply Qcle_trans with (fold_right (fun a m => if Qcleb a m then a else m) x0 l);
          [apply Qcleb_le, E | apply Hle; auto].
    + split; [destruct Hin; auto|]. intros x [<-|[<-|Hx]].
      * apply Hle; auto.
      * apply Qcleb_le, Qcleb_total, E.
      * apply Hle; auto.
Qed.

Lemma maxQc_greatest (l : list Qc) (m : Qc) :
  maxQc l = Some m -> In m l /\ forall x, In x l -> (x <= m)%Qc.
Proof.
  destruct l as [|x0 l]; [discriminate|]. simpl. intros [= <-].
  induction l as [|a l [Hin Hle]]; simpl.
  - split; [auto|]. intros x [<-|[]]. apply Qcle_refl.
  - destruct (Qcleb a _) eqn:E.
    + split; [destruct Hin; auto|]. intros x [<-|[<-|Hx]].
      * apply Hle; auto.
      * apply Qcleb_le, E.
      * apply Hle; auto.
    + apply Qcleb_total in E. apply Qcleb_le in E.
      split; [auto|]. intros x [<-|[<-|Hx]].
      * apply Qcle_trans with (fold_right (fun a m => if Qcleb a m then m else a) x0 l);
          [apply Hle; auto | exact E].
      * apply Qcle_refl.
      * apply Qcle_trans with (fold_right (fun a m => if Qcleb a m then m else a) x0 l);
          [apply Hle; auto | exact E].
Qed.

Lemma Qc_of_nat_pos (n : nat) : (0 < Qc_of_nat (S n))%Qc.
Proof.
  unfold Qclt, Qc_of_nat. cbn [this Q2Qc]. rewrite !Qred_correct.
  apply inject_nat_pos. lia.
Qed.

Lemma sum_between (l : list Qc) (lo hi : Qc) :
  (forall x, In x l -> (lo <= x)%Qc /\ (x <= hi)%Qc) ->
  (Qc_of_nat (List.length l) * lo <= sumQc l)%Qc
  /\ (sumQc l <= Qc_of_nat (List.length l) * hi)%Qc.
Proof.
  unfold sumQc. induction l as [|a l IH]; intros H.
  - cbn [fold_right List.length]. change (Qc_of_nat 0) with 0%Qc.
    change Qc_zero with 0%Qc. rewrite !Qcmult_0_l. split; apply Qcle_refl.
  - cbn [fold_right List.length]. rewrite Qc_of_nat_S.
    destruct IH as [I1 I2]; [intros x Hx; apply H; right; exact Hx|].
    destruct (H a (or_introl eq_refl)) as [A1 A2].
    rewrite !Qcmult_plus_distr_l, !Qcmult_1_l.
    split; apply Qcplus_le_compat; assumption.
Qed.

Lemma mean_between (l : list Qc) (lo hi m : Qc) :
  (forall x, In x l -> (lo <= x)%Qc /\ (x <= hi)%Qc) ->
  mean l = Some m -> (lo <= m)%Qc /\ (m <= hi)%Qc.
Proof.
  intros H Hm. destruct (sum_between l lo hi H) as [S1 S2].
  destruct l as [|a l]; [discriminate|].
  assert (Em : m = (sumQc (a :: l) / Qc_of_nat (List.length (a :: l)))%Qc).
  { unfold mean in Hm. injection Hm as <-. reflexivity. }
  clear Hm. subst m.
  set (n := Qc_of_nat (List.length (a :: l))) in *.
  assert (Hn : (0 < n)%Qc) by apply Qc_of_nat_pos.
  assert (Hz : n <> 0%Qc) by apply Qc_of_nat_nonzero.
  assert (E : (sumQc (a :: l) / n * n = sumQc (a :: l))%Qc).
  { rewrite Qcmult_comm. apply Qcmult_div_r, Hz. }
  split; apply (Qcmult_lt_0_le_reg_r _ _ n Hn); rewrite E.
  - rewrite Qcmult_comm. exact S1.
  - rewrite (Qcmult_comm hi). exact S2.
Qed.

(** X14: the minimum and the maximum reported for a numeric column are
    values of the column, below and above all its present values; for a
    column without a present value the four statistics are NaN. *)
Theorem describe_consistent (c : Series) :
  (dropna (numeric_values c) = [] -> describe c = mkStats None None None None)
  /\ (dropna (numeric_values c) <> [] ->
      exists mn mx,
        st_min (describe c) = Some mn /\ st_max (describe c) = Some mx
        /\ In mn (dropna (numeric_values c))
        /\ In mx (dropna (numeric_values c))
        /\ forall x, In x (dropna (numeric_values c)) ->
                     (mn <= x)%Qc /\ (x <= mx)%Qc).
Proof.
  unfold describe. cbn [st_min st_max]. split.
  - intros E. unfold median. rewrite E. reflexivity.
  - intros Hd.
    destruct (dropna (numeric_values c)) as [|x l] eqn:El; [congruence|].
    destruct (minQc (x :: l)) as [mn|] eqn:Emn; [|discriminate].
    destruct (maxQc (x :: l)) as [mx|] eqn:Emx; [|discriminate].
    destruct (minQc_least _ _ Emn) as [Imn Lmn].
    destruct (maxQc_greatest _ _ Emx) as [Imx Lmx].
    exists mn, mx.
    split; [reflexivity|]. split; [reflexivity|].
    split; [exact Imn|]. split; [exact Imx|].
    intros y Hy. split; [apply Lmn | apply Lmx]; exact Hy.
Qed.

Lemma describe_consistent_witness :
  dropna (numeric_values demo_outlier_column) <> []
  /\ exists mn mx,
       st_min (describe demo_outlier_column) = Some mn
       /\ st_max (describe demo_outlier_column) = Some mx
       /\ In mn (dropna (numeric_values demo_outlier_column))
       /\ In mx (dropna (numeric_values demo_outlier_column))
       /\ forall x, In x (dropna (numeric_values demo_outlier_column)) ->
                    (mn <= x)%Qc /\ (x <= mx)%Qc.
Proof.
  assert (Hd : dropna (numeric_values demo_outlier_column) <> [])
    by (simpl; discriminate).
  split; [exact Hd|].
  apply (proj2 (describe_consistent demo_outlier_column) Hd).
Defined.

(** ** Descending order with NaN last *)

Lemma StronglySorted_impl_on {A} (P : A -> Prop) (R R' : A -> A -> Prop)
    (l : list A) :
  Forall P l ->
  (forall a b, P a -> P b -> R a b -> R' a b) ->
  StronglySorted R l -> StronglySorted R' l.
Proof.
  intros HP H Hs. induction Hs as [|x l Hs IH Hx]; [constructor|].
  inversion HP as [|? ? Px Pl]; subst. constructor; [apply IH, Pl|].
  rewrite Forall_forall in *. intros b Hb. apply H; auto.
Qed.

Lemma StronglySorted_app {A} (R : A -> A -> Prop) (l1 l2 : list A) :
  StronglySorted R l1 -> StronglySorted R l2 ->
  (forall a b, In a l1 -> In b l2 -> R a b) ->
  StronglySorted R (l1 ++ l2).
Proof.
  intros H1 H2 H. induction H1 as [|x l1 Hs IH Hx]; simpl; [exact H2|].
  constructor.
  - apply IH. intros a b Ha Hb. apply H; [right; exact Ha | exact Hb].
  - apply Forall_forall. intros y Hy. apply in_app_or in Hy as [Hy|Hy].
    + rewrite Forall_forall in Hx. apply Hx, Hy.
    + apply H; [left; reflexivity | exact Hy].
Qed.

Lemma filter_split_perm {A} (f : A -> bool) (l : list A) :
  Permutation (filter (fun x => negb (f x)) l ++ filter f l) l.
Proof.
  induction l as [|a l IH]; simpl; [apply perm_nil|].
  destruct (f a); simpl.
  - apply Permutation_sym, Permutation_cons_app, Permutation_sym, IH.
  - apply perm_skip, IH.
Qed.

Lemma sort_desc_by_spec {R} (key : R -> option Qc) (s : list R) :
  Permutation (sort_desc_by key s) s
  /\ StronglySorted (fun a b => desc_nan_last (key a) (key b)) (sort_desc_by key s).
Proof.
  unfold sort_desc_by. split.
  - eapply perm_trans; [|apply (filter_split_perm (fun r => is_none (key r)))].
    apply Permutation_app_tail, sort_perm.
  - set (present := filter (fun r => negb (is_none (key r))) s).
    set (cmp := fun a b : R =>
                  match key a, key b with
                  | Some x, Some y => Qcleb y x
                  | _, _ => true
                  end).
    assert (Hp : Forall (fun r => is_none (key r) = false) (sort cmp present)).
    { apply Forall_forall. intros r Hr. apply sort_in in Hr.
      apply filter_In in Hr as [_ Hr]. apply negb_true_iff, Hr. }
    apply StronglySorted_app.
    + apply (StronglySorted_impl_on (fun r => is_none (key r) = false)
               (fun a b => cmp a b = true)); [exact Hp | |].
      * intros a b Ha Hb. unfold cmp, desc_nan_last.
        destruct (key a), (key b); try discriminate. apply Qcleb_le.
      * apply (sort_sorted cmp (fun r => is_none (key r) = false)).
        -- intros x y z Hx Hy Hz. unfold cmp.
           destruct (key x), (key y), (key z); try discriminate.
           intros H1 H2. apply (Qcleb_trans _ _ _ H2 H1).
        -- intros x y Hx Hy. unfold cmp.
           destruct (key x), (key y); try discriminate. apply Qcleb_total.
        -- apply Forall_forall. intros r Hr.
           apply filter_In in Hr as [_ Hr]. apply negb_true_iff, Hr.
    + clear Hp. clear present. induction s as [|r s IH]; simpl; [constructor|].
      destruct (is_none (key r)) eqn:E; [|exact IH].
      constructor; [exact IH|]. apply Forall_forall. intros y Hy.
      apply filter_In in Hy as [_ Hy]. unfold desc_nan_last.
      destruct (key r); [discriminate|]. destruct (key y); [discriminate | exact I].
    + intros a b Ha Hb. rewrite Forall_forall in Hp. specialize (Hp a Ha).
      apply filter_In in Hb as [_ Hb]. unfold desc_nan_last.
      destruct (key a); [|discriminate]. destruct (key b); [discriminate | exact I].
Qed.

(** X15: the table of basic statistics has one line per numeric column,
    ordered by mean from the largest down, columns without a mean last. *)
Theorem stats_table_sorted (df : DataFrame) :
  Permutation (stats_table df) (map (fun c => (name c, describe c)) (num_cols df))
  /\ StronglySorted
       (fun a b => desc_nan_last (st_mean (snd a)) (st_mean (snd b)))
       (stats_table df).
Proof. unfold stats_table. apply sort_desc_by_spec. Qed.

(** ** Groups and rates *)

Section UniqueFacts.

Context {A : Type} (eqb : A -> A -> bool).

Hypothesis eqb_eq : forall a b, eqb a b = true <-> a = b.

Lemma unique_in_gen (x : A) (l : list A) : In x (unique eqb l) <-> In x l.
Proof.
  induction l as [|y l IH]; simpl; [tauto|].
  rewrite filter_In, IH, negb_true_iff, <- not_true_iff_false, eqb_eq.
  split.
  - intros [E | [H _]]; auto.
  - intros [E | H]; [auto|].
    destruct (eqb y x) eqn:D.
    + left. apply eqb_eq, D.
    + right. split; [exact H|]. intros E. apply eqb_eq in E. congruence.
Qed.

Lemma unique_nodup_gen (l : list A) : NoDup (unique eqb l).
Proof.
  induction l as [|y l IH]; simpl; [constructor|]. constructor.
  - rewrite filter_In, negb_true_iff, <- not_true_iff_false, eqb_eq.
    intros [_ H]. apply H. reflexivity.
  - apply NoDup_filter, IH.
Qed.

End UniqueFacts.

Lemma key_eqb_eq (a b : key) : key_eqb a b = true <-> a = b.
Proof.
  destruct a as [x|x], b as [y|y]; simpl.
  - rewrite Qceqb_eq. split; congruence.
  - split; discriminate.
  - split; discriminate.
  - rewrite String.eqb_eq. split; congruence.
Qed.

Lemma dropna_in {A} (x : A) (v : list (option A)) :
  In x (dropna v) <-> In (Some x) v.
Proof.
  induction v as [|[a|] v IH]; simpl.
  - tauto.
  - rewrite IH. split; intros [H|H]; auto; left; congruence.
  - rewrite IH. split; [auto|]. intros [H|H]; [discriminate | exact H].
Qed.

Lemma groupby_mean_keys (by_ : list (option key)) (vals : list (option Qc)) :
  map fst (groupby_mean by_ vals) = sort key_leb (unique key_eqb (dropna by_)).
Proof.
  unfold groupby_mean. rewrite map_map. cbn [fst]. apply map_id.
Qed.

Lemma group_values_in (by_ : list (option key)) (vals : list (option Qc))
    (k : key) (x : Qc) :
  In x (dropna (map snd
          (filter (fun p => option_eqb key_eqb (fst p) (Some k))
                  (combine by_ vals)))) ->
  In x (dropna vals).
Proof.
  rewrite !dropna_in. intros H. apply in_map_iff in H as ([a b] & E & Hp).
  cbn [snd] in E. subst b. apply filter_In in Hp as [Hp _].
  apply (in_combine_r _ _ _ _ Hp).
Qed.

Lemma sort_values_desc_as_sort_desc_by {K} (s : list (K * option Qc)) :
  sort_values_desc s = sort_desc_by snd s.
Proof. reflexivity. Qed.

(** X16: the table of rates has one line per distinct present value of the
    grouping column; its rates go from the largest down, a group without a
    rate last; and when every present outcome is 0 or 1, every rate lies
    between 0 and 1. *)
Theorem rate_table_shape (by_ : list (option key)) (vals : list (option Qc)) :
  NoDup (map fst (sort_values_desc (groupby_mean by_ vals)))
  /\ (forall k, In k (map fst (sort_values_desc (groupby_mean by_ vals)))
                <-> In (Some k) by_)
  /\ StronglySorted (fun a b => desc_nan_last (snd a) (snd b))
       (sort_values_desc (groupby_mean by_ vals))
  /\ ((forall x, In (Some x) vals -> x = Qc_of_Z 0 \/ x = Qc_of_Z 1) ->
      forall k r, In (k, Some r) (sort_values_desc (groupby_mean by_ vals)) ->
                  (Qc_of_Z 0 <= r)%Qc /\ (r <= Qc_of_Z 1)%Qc).
Proof.
  rewrite sort_values_desc_as_sort_desc_by.
  destruct (sort_desc_by_spec snd (groupby_mean by_ vals)) as [Hperm Hsort].
  assert (Hk : Permutation (map fst (sort_desc_by snd (groupby_mean by_ vals)))
                 (unique key_eqb (dropna by_))).
  { eapply perm_trans; [apply Permutation_map, Hperm|].
    rewrite groupby_mean_keys. apply sort_perm. }
  split; [|split; [|split]].
  - apply (Permutation_NoDup (Permutation_sym Hk)).
    apply unique_nodup_gen, key_eqb_eq.
  - intros k. split; intros H.
    + apply dropna_in. apply (unique_in_gen key_eqb key_eqb_eq).
      apply (Permutation_in _ Hk), H.
    + apply (Permutation_in _ (Permutation_sym Hk)).
      apply (unique_in_gen key_eqb key_eqb_eq). apply dropna_in, H.
  - exact Hsort.
  - intros Hb k r Hin.
    apply (Permutation_in _ Hperm) in Hin. unfold groupby_mean in Hin.
    apply in_map_iff in Hin as (k0 & E & _). injection E as _ E.
    apply (mean_between _ (Qc_of_Z 0) (Qc_of_Z 1) r) in E; [exact E|].
    intros x Hx.
    destruct (Hb x (proj1 (dropna_in _ _) (group_values_in _ _ _ _ Hx)))
      as [-> | ->]; split; discriminate.
Qed.

Lemma rate_table_shape_witness :
  (forall x, In (Some x) [qz 0; qz 1; qz 1; qz 1] ->
             x = Qc_of_Z 0 \/ x = Qc_of_Z 1)
  /\ In (KStr "male", Some (Q2Qc (1 # 2)))
        (sort_values_desc
           (groupby_mean (keys (mkSeries "sex"
                            (Object [Some "male"; Some "male"; Some "female";
                                     Some "female"])))
                         [qz 0; qz 1; qz 1; qz 1]))
  /\ (Qc_of_Z 0 <= Q2Qc (1 # 2))%Qc /\ (Q2Qc (1 # 2) <= Qc_of_Z 1)%Qc.
Proof.
  assert (B : forall x, In (Some x) [qz 0; qz 1; qz 1; qz 1] ->
                        x = Qc_of_Z 0 \/ x = Qc_of_Z 1).
  { intros x [E|[E|[E|[E|[]]]]]; injection E as <-; auto. }
  assert (I : In (KStr "male", Some (Q2Qc (1 # 2)))
        (sort_values_desc
           (groupby_mean (keys (mkSeries "sex"
                            (Object [Some "male"; Some "male"; Some "female";
                                     Some "female"])))
                         [qz 0; qz 1; qz 1; qz 1]))).
  { right. left. vm_compute. qc_equal. }
  split; [exact B|]. split; [exact I|].
  apply (proj2 (proj2 (proj2 (rate_table_shape _ _))) B _ _ I).
Defined.

(** ** Outliers of a constant column *)

Lemma Qc_of_nat_this (k : nat) : (this (Qc_of_nat k) == inject_Z (Z.of_nat k))%Q.
Proof. unfold Qc_of_nat. cbn [this Q2Qc]. apply Qred_correct. Qed.

Lemma Qc_of_nat_nonneg (k : nat) : (0 <= Qc_of_nat k)%Qc.
Proof.
  unfold Qcle. rewrite Qc_of_nat_this. cbn [this Q2Qc].
  rewrite Qred_correct. change 0%Q with (inject_Z 0). rewrite <- Zle_Qle. lia.
Qed.

Lemma position_in_range (k : nat) (q : Qc) :
  (q <= 1)%Qc -> Z.to_nat (Qfloor (Qc_of_nat k * q)%Qc) <= k.
Proof.
  intros Hq.
  assert (H : (Qc_of_nat k * q <= Qc_of_nat k)%Qc).
  { rewrite Qcmult_comm. rewrite <- (Qcmult_1_l (Qc_of_nat k)) at 2.
    apply Qcmult_le_compat_r; [exact Hq | apply Qc_of_nat_nonneg]. }
  unfold Qcle in H. rewrite (Qc_of_nat_this k) in H.
  apply Qfloor_resp_le in H. rewrite Qfloor_Z in H. lia.
Qed.

Lemma quantile_constant (s : list Qc) (a q : Qc) :
  s <> [] -> (forall x, In x s -> x = a) -> (q <= 1)%Qc -> quantile s q = a.
Proof.
  intros Hn Ha Hq. unfold quantile.
  set (sorted := sort Qcleb s).
  assert (L : List.length sorted = List.length s) by apply sort_length.
  assert (P : 0 < List.length sorted).
  { rewrite L. destruct s; [congruence | simpl; lia]. }
  assert (N : forall i, i < List.length sorted -> nth i sorted Qc_zero = a).
  { intros i Hi. apply Ha. apply (sort_in Qcleb). apply nth_In, Hi. }
  pose proof (position_in_range (List.length sorted - 1) q Hq) as B.
  rewrite (N (Z.to_nat _)) by lia.
  rewrite (N (Nat.min _ _)) by lia.
  ring.
Qed.

Lemma Qcltb_irrefl (x : Qc) : Qcltb x x = false.
Proof.
  apply not_true_iff_false. rewrite Qcltb_lt. intros H.
  apply (Qclt_not_le _ _ H), Qcle_refl.
Qed.

Lemma quarter_le_one : (Q2Qc (1 # 4) <= 1)%Qc.
Proof. discriminate. Qed.

Lemma three_quarters_le_one : (Q2Qc (3 # 4) <= 1)%Qc.
Proof. discriminate. Qed.

(** X17: the outlier count of a column is at most the number of its present
    values, and a column whose present values are all the same has no
    outlier. *)
Theorem outlier_count_bounds (c : Series) :
  outlier_count c <= List.length (dropna (numeric_values c))
  /\ (forall a, (forall x, In (Some x) (numeric_values c) -> x = a) ->
                outlier_count c = 0).
Proof.
  unfold outlier_count. split.
  - destruct (dropna (numeric_values c)) as [|x l]; [simpl; lia|].
    unfold outliers. apply filter_length_le.
  - intros a Ha.
    destruct (dropna (numeric_values c)) as [|x l] eqn:E; [reflexivity|].
    assert (Hs : forall y, In y (x :: l) -> y = a).
    { intros y Hy. apply Ha. apply dropna_in. rewrite E. exact Hy. }
    assert (N : x :: l <> []) by discriminate.
    pose proof (quantile_constant (x :: l) a (Q2Qc (1 # 4)) N Hs quarter_le_one)
      as E1. fold (Q1 (x :: l)) in E1.
    pose proof (quantile_constant (x :: l) a (Q2Qc (3 # 4)) N Hs
                  three_quarters_le_one) as E3. fold (Q3 (x :: l)) in E3.
    assert (Lo : lower_fence (x :: l) = a).
    { unfold lower_fence, IQR. rewrite E1, E3. ring. }
    assert (Hi : upper_fence (x :: l) = a).
    { unfold upper_fence, IQR. rewrite E1, E3. ring. }
    unfold outliers. rewrite Lo, Hi. rewrite filter_none; [reflexivity|].
    intros y Hy. rewrite (Hs y Hy), Qcltb_irrefl. reflexivity.
Qed.

Lemma outlier_count_bounds_witness :
  (forall x, In (Some x) (numeric_values
                 (mkSeries "Pclass" (Numeric [qz 3; None; qz 3; qz 3]))) ->
             x = Qc_of_Z 3)
  /\ outlier_count (mkSeries "Pclass" (Numeric [qz 3; None; qz 3; qz 3])) = 0.
Proof.
  assert (H : forall x, In (Some x) (numeric_values
                 (mkSeries "Pclass" (Numeric [qz 3; None; qz 3; qz 3]))) ->
             x = Qc_of_Z 3).
  { intros x [E|[E|[E|[E|[]]]]]; try discriminate; injection E as <-; reflexivity. }
  split; [exact H|].
  apply (proj2 (outlier_count_bounds _) _ H).
Defined.

End AnalyzerFacts.

